(** * Metric adapter and dataset filtering of [training_adv.py]

    A shallow embedding of [src/nlp_project/training/training_adv.py]:
    [compute_metrics] (lines 21-43) and the column filtering done by
    [get_trainer] (lines 93-99).

    Python values are modelled as follows.
    - integers (label ids, argmax indices) are [Z];
    - tag names and column names are [string];
    - the prediction tensor is a nested list, innermost the label scores;
      a score is a float in the source and only ever compared, so the
      score type and its [<=] test are left abstract;
    - a raised exception is the left summand of [result];
    - the four returned floats are rationals: every value the statements
      below pin down is 0 or 1, and a quotient [n/n] is exact in floating
      point as well. *)

From Stdlib Require Import List ZArith QArith Qreduction Bool Arith Lia.
From Stdlib Require Import String Ascii Sorted.
Import ListNotations.

Local Open Scope string_scope.
Local Open Scope Z_scope.
Local Open Scope list_scope.

(** ** Exceptions *)

Inductive exn : Type :=
| IndexError
| ValueError
| TypeError
| ZeroDivisionError.

Definition result (A : Type) : Type := (exn + A)%type.

Definition ret {A : Type} (a : A) : result A := inr a.

Definition raise {A : Type} (e : exn) : result A := inl e.

Definition bind {A B : Type} (m : result A) (k : A -> result B) : result B :=
  match m with
  | inl e => inl e
  | inr a => k a
  end.

Notation "x <- m ;; k" := (bind m (fun x => k))
  (at level 61, m at next level, right associativity).

(** A list comprehension whose element expression may raise: elements are
    evaluated left to right and the first exception aborts the whole list. *)
Fixpoint mapM {A B : Type} (f : A -> result B) (xs : list A) : result (list B) :=
  match xs with
  | [] => ret []
  | x :: rest =>
      y <- f x ;;
      ys <- mapM f rest ;;
      ret (y :: ys)
  end.

(** ** Python list indexing

    [xs[i]] on a Python list: a negative index counts from the end, and an
    index outside [-len(xs) .. len(xs)-1] raises [IndexError]. *)
Definition getitem {A : Type} (xs : list A) (i : Z) : result A :=
  let n := Z.of_nat (List.length xs) in
  let j := if i <? 0 then i + n else i in
  if (j <? 0) || (n <=? j) then raise IndexError
  else match nth_error xs (Z.to_nat j) with
       | Some x => ret x
       | None => raise IndexError
       end.

(** The ignore sentinel that marks padding and sub-token continuations. *)
Definition IGNORE : Z := -100.

(** [l != -100] *)
Definition kept (pl : Z * Z) : bool := negb (snd pl =? IGNORE).

(** ** numpy's argmax along the last axis *)

Section Argmax.

Variable score : Type.
(** [leb x y] is the float test [x <= y]. *)
Variable leb : score -> score -> bool.

(** A float is NaN exactly when it is not [<=] itself. *)
Definition isnan (x : score) : bool := negb (leb x x).

(** The scan of [np.argmax] over one score vector: [mp] is the running
    maximum, [max_ind] its index, [i] the index of the head of [ip].  The
    running maximum is replaced only by an entry that is not [<=] it, so
    the first maximal entry wins; a NaN counts as maximal and ends the
    scan. *)
Fixpoint argmax_scan (mp : score) (max_ind i : nat) (ip : list score) : nat :=
  match ip with
  | [] => max_ind
  | x :: rest =>
      if leb x mp then argmax_scan mp max_ind (S i) rest
      else if isnan x then i
      else argmax_scan x i (S i) rest
  end.

(** [np.argmax] of an empty vector raises [ValueError]; a vector that
    starts with a NaN has its maximum there. *)
Definition argmax (v : list score) : result Z :=
  match v with
  | [] => raise ValueError
  | x :: rest =>
      if isnan x then ret 0
      else ret (Z.of_nat (argmax_scan x 0 1 rest))
  end.

(** [np.argmax(predictions, axis=2)]: one index per example and position. *)
Definition np_argmax_axis2 (predictions : list (list (list score)))
  : result (list (list Z)) :=
  mapM (mapM argmax) predictions.

End Argmax.

Arguments isnan {score} leb x.
Arguments argmax_scan {score} leb mp max_ind i ip.
Arguments argmax {score} leb v.
Arguments np_argmax_axis2 {score} leb predictions.

(** ** Decoding *)

Section Decode.

(** [all_labels] is imported from [nlp_project.utils], which is not part
    of the sources at hand: the ordered list of tag names, indexed by
    label id. *)
Variable all_labels : list string.

(** [[all_labels[p] for (p, l) in zip(prediction, label) if l != -100]] *)
Definition true_predictions_row (prediction label : list Z) : result (list string) :=
  mapM (fun pl => getitem all_labels (fst pl))
       (filter kept (combine prediction label)).

(** [[all_labels[l] for (p, l) in zip(prediction, label) if l != -100]] *)
Definition true_labels_row (prediction label : list Z) : result (list string) :=
  mapM (fun pl => getitem all_labels (snd pl))
       (filter kept (combine prediction label)).

(** Lines 25-28. *)
Definition true_predictions (predictions labels : list (list Z))
  : result (list (list string)) :=
  mapM (fun pl => true_predictions_row (fst pl) (snd pl))
       (combine predictions labels).

(** Lines 29-32. *)
Definition true_labels (predictions labels : list (list Z))
  : result (list (list string)) :=
  mapM (fun pl => true_labels_row (fst pl) (snd pl))
       (combine predictions labels).

(** Lines 25-32: both comprehensions, in the order they are evaluated. *)
Definition decode (predictions labels : list (list Z))
  : result (list (list string) * list (list string)) :=
  tp <- true_predictions predictions labels ;;
  tl <- true_labels predictions labels ;;
  ret (tp, tl).

End Decode.

(** ** The sequence-labeling evaluator

    Modelled from the spec: the evaluator that [evaluate.load("seqeval")]
    returns is an external collaborator and its code is not among the
    sources.  Section 4.1 (step 5) of the specification describes it: it
    scores entity spans (maximal runs of non-"O" tags sharing a type, under
    the B-/I- convention) for precision, recall and F1, and raw tags for
    accuracy.  What the specification leaves open is filled in with the
    evaluator's defaults, which [compute_metrics] does not override: a span
    ratio with a zero denominator is 0, and the tag accuracy of zero tags is
    a division by zero. *)

Module Seqeval.

(** An entity span: its type and the first and last offset it covers. *)
Definition entity : Type := (string * Z * Z)%type.

Definition entity_eq_dec (a b : entity) : {a = b} + {a <> b}.
Proof.
  decide equality; [apply Z.eq_dec | decide equality; [apply Z.eq_dec | apply string_dec]].
Defined.

Definition entity_eqb (a b : entity) : bool :=
  if entity_eq_dec a b then true else false.

(** The part of [s] after its first dash, if it has one. *)
Fixpoint after_first_dash (s : string) : option string :=
  match s with
  | EmptyString => None
  | String c rest => if Ascii.eqb c "-" then Some rest else after_first_dash rest
  end.

(** The type of a tag whose first character has been taken off:
    what follows the first dash, and ["_"] when that is empty. *)
Definition chunk_type (rest : string) : string :=
  let t := match after_first_dash rest with
           | Some r => r
           | None => rest
           end in
  if String.eqb t "" then "_" else t.

Definition tag_is (a : ascii) (c : ascii) : bool := Ascii.eqb a c.

(** Does a span end between the previous tag and this one? *)
Definition end_of_chunk (prev_tag tag : ascii) (prev_type type_ : string) : bool :=
  tag_is prev_tag "E"
  || tag_is prev_tag "S"
  || (tag_is prev_tag "B" && (tag_is tag "B" || tag_is tag "S" || tag_is tag "O"))
  || (tag_is prev_tag "I" && (tag_is tag "B" || tag_is tag "S" || tag_is tag "O"))
  || (negb (tag_is prev_tag "O") && negb (tag_is prev_tag ".")
      && negb (String.eqb prev_type type_)).

(** Does a span start at this tag? *)
Definition start_of_chunk (prev_tag tag : ascii) (prev_type type_ : string) : bool :=
  tag_is tag "B"
  || tag_is tag "S"
  || (tag_is prev_tag "E" && (tag_is tag "E" || tag_is tag "I"))
  || (tag_is prev_tag "S" && (tag_is tag "E" || tag_is tag "I"))
  || (tag_is prev_tag "O" && (tag_is tag "E" || tag_is tag "I"))
  || (negb (tag_is tag "O") && negb (tag_is tag ".")
      && negb (String.eqb prev_type type_)).

(** One pass over the tags, [i] being the offset of the head of [seq]. *)
Fixpoint chunk_scan (seq : list string) (i : Z) (prev_tag : ascii)
    (prev_type : string) (begin_offset : Z) (chunks : list entity)
  : result (list entity) :=
  match seq with
  | [] => ret chunks
  | EmptyString :: _ => raise IndexError
  | String tag rest :: seq' =>
      let type_ := chunk_type rest in
      let chunks' :=
        if end_of_chunk prev_tag tag prev_type type_
        then chunks ++ [(prev_type, begin_offset, i - 1)]
        else chunks in
      let begin_offset' :=
        if start_of_chunk prev_tag tag prev_type type_ then i else begin_offset in
      chunk_scan seq' (i + 1) tag type_ begin_offset' chunks'
  end.

(** The spans of a batch of tag sequences: the sequences are laid end to
    end, each closed by an "O". *)
Definition get_entities (seqs : list (list string)) : result (list entity) :=
  let seq := flat_map (fun sublist => sublist ++ ["O"]) seqs in
  chunk_scan (seq ++ ["O"]) 0 "O" "" 0 [].

(** Both arguments must be non-empty batches of the same shape. *)
Definition check_consistent_length (y_true y_pred : list (list string)) : result unit :=
  match y_true, y_pred with
  | [], [] => raise TypeError
  | _, _ =>
      if list_eq_dec Nat.eq_dec (map (@List.length string) y_true)
                                (map (@List.length string) y_pred)
      then ret tt
      else raise ValueError
  end.

(** A span ratio; a zero denominator gives 0. *)
Definition prf_divide (numerator denominator : nat) : Q :=
  match denominator with
  | O => 0%Q
  | S _ => Qred (Z.of_nat numerator # Pos.of_nat denominator)
  end.

(** Micro-averaged precision, recall and F1 over the spans of the batch. *)
Definition precision_recall_fscore (y_true y_pred : list (list string))
  : result (Q * Q * Q) :=
  entities_true <- get_entities y_true ;;
  entities_pred <- get_entities y_pred ;;
  let true_set := nodup entity_eq_dec entities_true in
  let pred_set := nodup entity_eq_dec entities_pred in
  let tp_sum := List.length (filter (fun e => existsb (entity_eqb e) pred_set) true_set) in
  let pred_sum := List.length pred_set in
  let true_sum := List.length true_set in
  let precision := prf_divide tp_sum pred_sum in
  let recall := prf_divide tp_sum true_sum in
  let denom := (precision + recall)%Q in
  let denom := if Qeq_bool denom 0 then 1%Q else denom in
  let f_score := Qred ((2 * precision * recall) / denom)%Q in
  ret (precision, recall, f_score).

(** The share of positions whose two tags agree. *)
Definition accuracy_score (y_true y_pred : list (list string)) : result Q :=
  let y_true := List.concat y_true in
  let y_pred := List.concat y_pred in
  let nb_correct :=
    List.length (filter (fun tp => String.eqb (fst tp) (snd tp)) (combine y_true y_pred)) in
  let nb_true := List.length y_true in
  match nb_true with
  | O => raise ZeroDivisionError
  | S _ => ret (Qred (Z.of_nat nb_correct # Pos.of_nat nb_true))
  end.

Record results : Type := {
  overall_precision : Q;
  overall_recall : Q;
  overall_f1 : Q;
  overall_accuracy : Q
}.

(** [seqeval.compute(predictions=..., references=...)] *)
Definition compute (predictions references : list (list string)) : result results :=
  _ <- check_consistent_length references predictions ;;
  prf <- precision_recall_fscore references predictions ;;
  acc <- accuracy_score references predictions ;;
  let '(p, r, f) := prf in
  ret {| overall_precision := p; overall_recall := r;
         overall_f1 := f; overall_accuracy := acc |}.

End Seqeval.

(** ** compute_metrics *)

(** The dictionary [compute_metrics] returns, one field per key. *)
Record metrics : Type := {
  precision : Q;
  recall : Q;
  f1 : Q;
  accuracy : Q
}.

Section ComputeMetrics.

Variable all_labels : list string.
Variable score : Type.
Variable leb : score -> score -> bool.

(** Lines 21-43; [p] is the pair (predictions, labels). *)
Definition compute_metrics (p : list (list (list score)) * list (list Z))
  : result metrics :=
  let '(predictions, labels) := p in
  predictions <- np_argmax_axis2 leb predictions ;;
  true_predictions <- true_predictions all_labels predictions labels ;;
  true_labels <- true_labels all_labels predictions labels ;;
  results <- Seqeval.compute true_predictions true_labels ;;
  ret {| precision := Seqeval.overall_precision results;
         recall := Seqeval.overall_recall results;
         f1 := Seqeval.overall_f1 results;
         accuracy := Seqeval.overall_accuracy results |}.

(** The decoded sequences [compute_metrics] hands to the evaluator. *)
Definition decoded (p : list (list (list score)) * list (list Z))
  : result (list (list string) * list (list string)) :=
  let '(predictions, labels) := p in
  predictions <- np_argmax_axis2 leb predictions ;;
  decode all_labels predictions labels.

End ComputeMetrics.

Arguments compute_metrics all_labels {score} leb p.
Arguments decoded all_labels {score} leb p.

(** ** The state of the module

    What outlives a call of [compute_metrics]: the process environment,
    which the module writes when it is imported (lines 14-15), and the
    names it imports from [nlp_project.utils] (line 11), of which
    [compute_metrics] reads [all_labels] and [get_trainer] hands
    [id2label] and [label2id] to the model loader. *)

Record module_state : Type := {
  os_environ : list (string * string);
  g_all_labels : list string;
  g_id2label : list (Z * string);
  g_label2id : list (string * Z)
}.

(** [os.environ[k] = v] *)
Definition setenv (k v : string) (env : list (string * string))
  : list (string * string) :=
  (k, v) :: filter (fun kv => negb (String.eqb (fst kv) k)) env.

(** Lines 14-15. *)
Definition import_module (g : module_state) : module_state :=
  {| os_environ :=
       setenv "WANDB_LOG_MODEL" "checkpoint"
         (setenv "WANDB_PROJECT" "<pii_detection>" (os_environ g));
     g_all_labels := g_all_labels g;
     g_id2label := g_id2label g;
     g_label2id := g_label2id g |}.

(** What a call of [compute_metrics] lets its caller see: the decoded
    sequences it hands to the evaluator and what it returns or raises. *)
Record outcome : Type := {
  decoded_sequences : result (list (list string) * list (list string));
  returned : result metrics
}.

Section Calls.

Variable score : Type.
Variable leb : score -> score -> bool.

(** A call of [compute_metrics] in the module state [g].  The body reads
    the global [all_labels] and binds local names only (lines 22-43), so
    the state is handed on as it was found. *)
Definition call_compute_metrics
    (p : list (list (list score)) * list (list Z)) (g : module_state)
  : outcome * module_state :=
  ({| decoded_sequences := decoded (g_all_labels g) leb p;
      returned := compute_metrics (g_all_labels g) leb p |}, g).

(** The evaluation rounds of a run: the trainer calls [compute_metrics]
    once per round (line 108), on that round's predictions and labels,
    each call in the state the previous one left. *)
Fixpoint evaluation_rounds
    (ps : list (list (list (list score)) * list (list Z))) (g : module_state)
  : list outcome * module_state :=
  match ps with
  | [] => ([], g)
  | p :: rest =>
      let (o, g1) := call_compute_metrics p g in
      let (os, g2) := evaluation_rounds rest g1 in
      (o :: os, g2)
  end.

End Calls.

Arguments call_compute_metrics {score} leb p g.
Arguments evaluation_rounds {score} leb ps g.

(** ** Column filtering in get_trainer *)

Section Datasets.

(** The contents of a column play no part in the filtering. *)
Variable column : Type.

(** A tabular dataset: its columns, by name, in order. *)
Definition Dataset : Type := list (string * column).

Definition column_names (d : Dataset) : list string := map fst d.

Definition mem (c : string) (names : list string) : bool :=
  existsb (String.eqb c) names.

(** [Dataset.remove_columns] of the datasets library the loader builds
    on: every name must be a column of the dataset ([ValueError]
    otherwise); the named columns are dropped and the others kept, in
    order. *)
Definition remove_columns (d : Dataset) (names : list string) : result Dataset :=
  if forallb (fun c => mem c (column_names d)) names
  then ret (filter (fun kv => negb (mem (fst kv) names)) d)
  else raise ValueError.

(** Lines 93-97. *)
Definition columns_to_remove (train_dataset : Dataset) : list string :=
  filter (fun col => negb (mem col ["input_ids"; "labels"]))
         (column_names train_dataset).

(** What the trainer is given; the model, tokenizer, arguments, collator
    and callbacks are opaque objects of the training library. *)
Record Trainer : Type := {
  train_dataset : Dataset;
  eval_dataset : Dataset
}.

(** Lines 93-110, from the two datasets [json_to_Dataset_adv] loaded. *)
Definition get_trainer (train_dataset val_dataset : Dataset) : result Trainer :=
  let columns_to_remove := columns_to_remove train_dataset in
  train_dataset <- remove_columns train_dataset columns_to_remove ;;
  val_dataset <- remove_columns val_dataset columns_to_remove ;;
  ret {| train_dataset := train_dataset; eval_dataset := val_dataset |}.

End Datasets.

Arguments column_names {column} d.
Arguments remove_columns {column} d names.
Arguments columns_to_remove {column} train_dataset.
Arguments get_trainer {column} train_dataset val_dataset.
Arguments train_dataset {column} t.
Arguments eval_dataset {column} t.

(** ** Paths built by get_trainer *)

(** [f"models/{run_name}"] (line 60): the checkpoint the model is resumed
    from. *)
Definition model_dir (run_name : string) : string :=
  ("models/" ++ run_name)%string.

(** [f"{run_name}_adv"] (lines 64, 79 and 131): the directory the
    checkpoints and the final model are written to. *)
Definition output_dir (run_name : string) : string :=
  (run_name ++ "_adv")%string.

(** [f"data/{dataset_prefix}_train_adv.json"] (line 87). *)
Definition train_file (dataset_prefix : string) : string :=
  ("data/" ++ dataset_prefix ++ "_train_adv.json")%string.

(** [f"data/{dataset_prefix}_val_adv.json"] (line 90). *)
Definition val_file (dataset_prefix : string) : string :=
  ("data/" ++ dataset_prefix ++ "_val_adv.json")%string.

(** ** Vocabulary of the statements *)

(** The ids Python accepts as an index into a list of [n] elements. *)
Definition valid_index (n : nat) (i : Z) : Prop := - Z.of_nat n <= i < Z.of_nat n.

(** The reference ids that survive the filter. *)
Definition not_ignored (l : Z) : bool := negb (l =? IGNORE).

Section Statements.

Variable all_labels : list string.
Variable score : Type.
Variable leb : score -> score -> bool.

(** How the decoded sequences [dp] and [dl] of one example relate to its
    rows: [idx] lists the surviving positions. *)
Definition decoded_at (prediction label : list Z) (idx : list nat)
    (dp dl : list string) : Prop :=
  StronglySorted lt idx
  /\ (forall i, In i idx <->
        exists p l, nth_error prediction i = Some p
                    /\ nth_error label i = Some l /\ l <> IGNORE)
  /\ Forall2 (fun i t => exists p, nth_error prediction i = Some p
                                   /\ getitem all_labels p = inr t) idx dp
  /\ Forall2 (fun i t => exists l, nth_error label i = Some l
                                   /\ getitem all_labels l = inr t) idx dl.

(** [x], at position [k], is the first largest entry of [v]. *)
Definition maximum_at (v : list score) (x : score) (k : nat) : Prop :=
  nth_error v k = Some x
  /\ (forall j y, nth_error v j = Some y -> leb y x = true)
  /\ (forall j y, (j < k)%nat -> nth_error v j = Some y -> leb x y = false).

(** [k] is the position of the first largest entry of [v]. *)
Definition first_maximum (v : list score) (k : nat) : Prop :=
  exists x, maximum_at v x k.

End Statements.

Arguments maximum_at {score} leb v x k.
Arguments first_maximum {score} leb v k.

(** The tag Python's indexing yields for an id it accepts: the id counts
    modulo the size of the vocabulary, so a negative id counts from the
    end. *)
Definition tag_of (all_labels : list string) (i : Z) : string :=
  nth (Z.to_nat (i mod Z.of_nat (List.length all_labels))) all_labels "".

(** Two rows of predicted ids of the same length that agree wherever the
    reference id is not the sentinel. *)
Definition agree_where_kept (r1 r2 label : list Z) : Prop :=
  List.length r1 = List.length r2
  /\ forall i p1 p2 l,
       nth_error r1 i = Some p1 -> nth_error r2 i = Some p2 ->
       nth_error label i = Some l -> l <> IGNORE -> p1 = p2.

(** The same, example by example. *)
Definition batches_agree_where_kept (ids1 ids2 labels : list (list Z)) : Prop :=
  List.length ids1 = List.length ids2
  /\ forall e r1 r2 label,
       nth_error ids1 e = Some r1 -> nth_error ids2 e = Some r2 ->
       nth_error labels e = Some label -> agree_where_kept r1 r2 label.

(** The columns the model consumes. *)
Definition keep_column (c : string) : bool := mem c ["input_ids"; "labels"].

(** The rows of a batch, each cut to the shorter of its prediction row and
    its label row. *)
Definition cut_predictions (ids labels : list (list Z)) : list (list Z) :=
  map (fun pl => firstn (Nat.min (List.length (fst pl)) (List.length (snd pl))) (fst pl))
      (combine ids labels).

Definition cut_labels (ids labels : list (list Z)) : list (list Z) :=
  map (fun pl => firstn (Nat.min (List.length (fst pl)) (List.length (snd pl))) (snd pl))
      (combine ids labels).

(** Some position of the batch survives the filter. *)
Definition some_position_kept (ids labels : list (list Z)) : Prop :=
  exists prediction label p l,
    In (prediction, label) (combine ids labels)
    /\ In (p, l) (combine prediction label) /\ l <> IGNORE.

(** Every id at a surviving position is an index of a vocabulary of [n]
    tags. *)
Definition kept_ids_valid (n : nat) (ids labels : list (list Z)) : Prop :=
  forall prediction label p l,
    In (prediction, label) (combine ids labels) ->
    In (p, l) (combine prediction label) -> l <> IGNORE ->
    valid_index n p /\ valid_index n l.

(** The order [<=] of floats on integers extended with a NaN ([None]):
    every comparison with NaN is false. *)
Definition nan_leb (x y : option Z) : bool :=
  match x, y with
  | Some a, Some b => a <=? b
  | _, _ => false
  end.

(** ** Sample inputs *)

Definition sample_vocabulary : list string := ["O"; "B-PER"].

(** One example of three positions, three scores each; its argmax is
    [0; 2; 1]. *)
Definition sample_predictions : list (list (list Z)) :=
  [[[1; 0; 0]; [0; 0; 1]; [0; 1; 0]]].

Definition sample_labels : list (list Z) := [[0; -100; 1]].

Definition sample_train : Dataset unit :=
  [("input_ids", tt); ("labels", tt); ("tokens", tt)].

Definition sample_val : Dataset unit :=
  [("input_ids", tt); ("labels", tt); ("tokens", tt); ("extra", tt)].

(** * Properties *)

(** ** The error monad and list comprehensions *)

Lemma bind_inr {A B : Type} (m : result A) (k : A -> result B) (b : B) :
  bind m k = inr b -> exists a, m = inr a /\ k a = inr b.
Proof.
  destruct m as [e | a]; simpl; intro H; [discriminate | eauto].
Qed.

Lemma mapM_Forall2 {A B : Type} (f : A -> result B) (xs : list A) (ys : list B) :
  mapM f xs = inr ys <-> Forall2 (fun x y => f x = inr y) xs ys.
Proof.
  revert ys; induction xs as [| x xs IH]; intros ys; simpl.
  - split; intro H.
    + injection H as <-. constructor.
    + inversion H. reflexivity.
  - split; intro H.
    + apply bind_inr in H as (y & Hy & H).
      apply bind_inr in H as (ys' & Hys & H).
      injection H as <-. constructor; [assumption | now apply IH].
    + inversion H as [| ? y ? ys' Hy Hys]; subst.
      apply IH in Hys. rewrite Hy, Hys. reflexivity.
Qed.

Lemma mapM_length {A B : Type} (f : A -> result B) (xs : list A) (ys : list B) :
  mapM f xs = inr ys -> List.length ys = List.length xs.
Proof.
  intro H. apply mapM_Forall2 in H. symmetry. eapply Forall2_length; eassumption.
Qed.

Lemma mapM_nth_error {A B : Type} (f : A -> result B) (xs : list A) (ys : list B) :
  mapM f xs = inr ys ->
  forall i x, nth_error xs i = Some x ->
  exists y, nth_error ys i = Some y /\ f x = inr y.
Proof.
  intro H. apply mapM_Forall2 in H.
  induction H as [| x0 y0 xs ys Hxy _ IH]; intros [| i] x Hx; simpl in *;
    try discriminate.
  - injection Hx as <-. eauto.
  - eauto.
Qed.

Lemma mapM_ext_in {A B : Type} (f g : A -> result B) (xs : list A) :
  (forall x, In x xs -> f x = g x) -> mapM f xs = mapM g xs.
Proof.
  induction xs as [| x xs IH]; intro H; simpl; [reflexivity |].
  rewrite (H x (or_introl eq_refl)), IH; [reflexivity |].
  intros y Hy. apply H. now right.
Qed.

(** A comprehension all of whose elements evaluate does so as a whole. *)
Lemma mapM_total {A B : Type} (f : A -> result B) (xs : list A) :
  (forall x, In x xs -> exists y, f x = inr y) -> exists ys, mapM f xs = inr ys.
Proof.
  induction xs as [| x xs IH]; intro H; simpl; [eexists; reflexivity |].
  destruct (H x (or_introl eq_refl)) as (y & Hy).
  destruct IH as (ys & Hys); [intros z Hz; apply H; now right |].
  rewrite Hy, Hys. eexists; reflexivity.
Qed.

(** A comprehension whose elements can only raise [e] raises [e] as soon as
    one element does. *)
Lemma mapM_raises {A B : Type} (f : A -> result B) (e : exn) (xs : list A) :
  (forall x e', f x = inl e' -> e' = e) ->
  (exists x, In x xs /\ f x = inl e) ->
  mapM f xs = inl e.
Proof.
  intros Honly (x & Hin & Hx).
  induction xs as [| x0 xs IH]; simpl in *; [contradiction |].
  destruct (f x0) as [e' | y] eqn:E0; simpl.
  - now rewrite (Honly _ _ E0).
  - destruct Hin as [-> | Hin]; [congruence |].
    rewrite (IH Hin). reflexivity.
Qed.

Lemma mapM_only_raises {A B : Type} (f : A -> result B) (e : exn) (xs : list A) :
  (forall x e', f x = inl e' -> e' = e) ->
  forall e', mapM f xs = inl e' -> e' = e.
Proof.
  intros Honly. induction xs as [| x xs IH]; simpl; intros e' H; [discriminate |].
  destruct (f x) as [e0 | y] eqn:E0; simpl in H.
  - injection H as <-. eauto.
  - destruct (mapM f xs) as [e1 | ys]; simpl in H; [| discriminate].
    injection H as <-. eauto.
Qed.

(** ** Indexing the vocabulary *)

Lemma getitem_valid {A : Type} (xs : list A) (i : Z) :
  valid_index (List.length xs) i -> exists x, getitem xs i = inr x.
Proof.
  unfold valid_index, getitem. intros H.
  set (n := Z.of_nat (List.length xs)) in *.
  set (j := if i <? 0 then i + n else i).
  assert (Hj : 0 <= j < n) by (subst j; destruct (Z.ltb_spec i 0); lia).
  destruct (Z.ltb_spec j 0); [lia |]. destruct (Z.leb_spec n j); [lia |]. simpl.
  destruct (nth_error xs (Z.to_nat j)) as [x |] eqn:E; [eauto |].
  apply nth_error_None in E. lia.
Qed.

Lemma getitem_invalid {A : Type} (xs : list A) (i : Z) :
  ~ valid_index (List.length xs) i -> getitem xs i = inl IndexError.
Proof.
  unfold valid_index, getitem. intros H.
  set (n := Z.of_nat (List.length xs)) in *.
  set (j := if i <? 0 then i + n else i).
  assert (Hj : j < 0 \/ n <= j) by (subst j; destruct (Z.ltb_spec i 0); lia).
  destruct (Z.ltb_spec j 0); [reflexivity |]. destruct (Z.leb_spec n j); [reflexivity | lia].
Qed.

Lemma getitem_only_IndexError {A : Type} (xs : list A) (i : Z) (e : exn) :
  getitem xs i = inl e -> e = IndexError.
Proof.
  unfold getitem.
  destruct ((_ <? 0) || _); [intro H; injection H as <-; reflexivity |].
  destruct (nth_error _ _); [discriminate | intro H; injection H as <-; reflexivity].
Qed.

Lemma kept_spec (p l : Z) : kept (p, l) = true <-> l <> IGNORE.
Proof.
  unfold kept; simpl. rewrite negb_true_iff, Z.eqb_neq. reflexivity.
Qed.

Lemma nth_error_combine {A B : Type} (xs : list A) (ys : list B) (i : nat) (x : A) (y : B) :
  nth_error xs i = Some x -> nth_error ys i = Some y ->
  nth_error (combine xs ys) i = Some (x, y).
Proof.
  revert ys i; induction xs as [| x0 xs IH]; intros [| y0 ys] [| i]; simpl;
    try discriminate.
  - now intros [= ->] [= ->].
  - apply IH.
Qed.

Lemma Forall2_common_left {A B C : Type} (P : A -> B -> Prop) (Q : A -> C -> Prop)
    (R : B -> C -> Prop) (xs : list A) (ys : list B) (zs : list C) :
  (forall x y z, P x y -> Q x z -> R y z) ->
  Forall2 P xs ys -> Forall2 Q xs zs -> Forall2 R ys zs.
Proof.
  intros HR HP. revert zs. induction HP as [| x y xs ys Hxy _ IH]; intros zs HQ;
    inversion HQ; subst; constructor; eauto.
Qed.

(** zip stops at the shorter list: what lies beyond is never looked at. *)
Lemma combine_truncate {A B : Type} (xs : list A) (ys : list B) :
  let m := Nat.min (List.length xs) (List.length ys) in
  combine (firstn m xs) (firstn m ys) = combine xs ys.
Proof.
  revert ys; induction xs as [| x xs IH]; intros [| y ys]; simpl; try reflexivity.
  f_equal. apply IH.
Qed.

Lemma combine_snd_firstn {A B : Type} (xs : list A) (ys : list B) :
  map snd (combine xs ys) = firstn (Nat.min (List.length xs) (List.length ys)) ys.
Proof.
  revert ys; induction xs as [| x xs IH]; intros [| y ys]; simpl; try reflexivity.
  f_equal. apply IH.
Qed.

Lemma filter_snd_length {A B : Type} (g : B -> bool) (xs : list (A * B)) :
  List.length (filter (fun ab => g (snd ab)) xs) = List.length (filter g (map snd xs)).
Proof.
  induction xs as [| [a b] xs IH]; simpl; [reflexivity |].
  destruct (g b); simpl; congruence.
Qed.

(** ** Decoding one example *)

Section RowProperties.

Variable all_labels : list string.

Lemma StronglySorted_map_S (idx : list nat) :
  StronglySorted lt idx -> StronglySorted lt (map S idx).
Proof.
  induction 1 as [| i idx _ IH Hall]; simpl; constructor; [assumption |].
  rewrite Forall_map. eapply Forall_impl; [| exact Hall]. simpl. intros; lia.
Qed.

Lemma Forall2_map_S {T : Type} (P : nat -> T -> Prop) (idx : list nat) (ts : list T) :
  Forall2 (fun i t => P (S i) t) idx ts -> Forall2 P (map S idx) ts.
Proof.
  induction 1; simpl; constructor; assumption.
Qed.

Lemma decoded_at_shift (p l : Z) (prediction label : list Z) (idx : list nat)
    (dp dl : list string) :
  l = IGNORE ->
  decoded_at all_labels prediction label idx dp dl ->
  decoded_at all_labels (p :: prediction) (l :: label) (map S idx) dp dl.
Proof.
  intros Hl (Hs & Hin & Hp & Hl'). repeat split.
  - now apply StronglySorted_map_S.
  - rewrite in_map_iff. intros (j & <- & Hj). simpl. now apply Hin.
  - intros (p0 & l0 & H1 & H2 & H3). destruct i as [| j]; simpl in *.
    + congruence.
    + apply in_map. apply Hin. eauto.
  - apply Forall2_map_S. exact Hp.
  - apply Forall2_map_S. exact Hl'.
Qed.

Lemma decoded_at_keep (p l : Z) (tp tl : string) (prediction label : list Z)
    (idx : list nat) (dp dl : list string) :
  l <> IGNORE ->
  getitem all_labels p = inr tp ->
  getitem all_labels l = inr tl ->
  decoded_at all_labels prediction label idx dp dl ->
  decoded_at all_labels (p :: prediction) (l :: label) (0%nat :: map S idx) (tp :: dp) (tl :: dl).
Proof.
  intros Hl Hgp Hgl (Hs & Hin & Hp & Hl'). repeat split.
  - constructor; [now apply StronglySorted_map_S |].
    rewrite Forall_map. apply Forall_forall. intros; lia.
  - intros [<- | Hi]; simpl.
    + eauto.
    + apply in_map_iff in Hi as (j & <- & Hj). simpl. now apply Hin.
  - intros (p0 & l0 & H1 & H2 & H3). destruct i as [| j]; simpl in *.
    + now left.
    + right. apply in_map. apply Hin. eauto.
  - constructor; [simpl; eauto | apply Forall2_map_S; exact Hp].
  - constructor; [simpl; eauto | apply Forall2_map_S; exact Hl'].
Qed.

Lemma decoded_at_nil_l (label : list Z) : decoded_at all_labels [] label [] [] [].
Proof.
  repeat split; try constructor; try contradiction.
  intros (p & l & H & _). destruct i; discriminate.
Qed.

Lemma decoded_at_nil_r (prediction : list Z) : decoded_at all_labels prediction [] [] [] [].
Proof.
  repeat split; try constructor; try contradiction.
  intros (p & l & _ & H & _). destruct i; discriminate.
Qed.

Lemma row_decoded_at (prediction label : list Z) (dp dl : list string) :
  true_predictions_row all_labels prediction label = inr dp ->
  true_labels_row all_labels prediction label = inr dl ->
  exists idx, decoded_at all_labels prediction label idx dp dl.
Proof.
  unfold true_predictions_row, true_labels_row.
  revert label dp dl.
  induction prediction as [| p prediction IH]; intros [| l label] dp dl; simpl.
  - intros [= <-] [= <-]. eexists. apply decoded_at_nil_l.
  - intros [= <-] [= <-]. eexists. apply decoded_at_nil_l.
  - intros [= <-] [= <-]. eexists. apply decoded_at_nil_r.
  - destruct (kept (p, l)) eqn:K.
    + simpl. intros Hp Hl.
      apply bind_inr in Hp as (tp & Hgp & Hp). apply bind_inr in Hp as (dp' & Hp & E).
      injection E as <-.
      apply bind_inr in Hl as (tl & Hgl & Hl). apply bind_inr in Hl as (dl' & Hl & E).
      injection E as <-.
      destruct (IH _ _ _ Hp Hl) as (idx & Hidx).
      eexists. apply decoded_at_keep; eauto. now apply (kept_spec p l).
    + intros Hp Hl. destruct (IH _ _ _ Hp Hl) as (idx & Hidx).
      eexists. apply decoded_at_shift; eauto.
      destruct (Z.eq_dec l IGNORE) as [E | N]; [assumption |].
      apply (kept_spec p l) in N. congruence.
Qed.

(** The rows decode when every id at a surviving position is an index of
    the vocabulary. *)
Lemma rows_total (prediction label : list Z) :
  (forall p l, In (p, l) (combine prediction label) -> l <> IGNORE ->
     valid_index (List.length all_labels) p /\ valid_index (List.length all_labels) l) ->
  exists dp dl,
    true_predictions_row all_labels prediction label = inr dp
    /\ true_labels_row all_labels prediction label = inr dl.
Proof.
  intro H. unfold true_predictions_row, true_labels_row.
  assert (Hv : forall pl, In pl (filter kept (combine prediction label)) ->
                valid_index (List.length all_labels) (fst pl)
                /\ valid_index (List.length all_labels) (snd pl)).
  { intros [p l] Hin. apply filter_In in Hin as (Hin & K).
    apply H; [assumption | now apply (kept_spec p l)]. }
  destruct (mapM_total (fun pl => getitem all_labels (fst pl))
              (filter kept (combine prediction label))) as (dp & Hdp).
  { intros pl Hin. apply getitem_valid. now apply Hv. }
  destruct (mapM_total (fun pl => getitem all_labels (snd pl))
              (filter kept (combine prediction label))) as (dl & Hdl).
  { intros pl Hin. apply getitem_valid. now apply Hv. }
  eauto.
Qed.

Lemma row_length_pred (prediction label : list Z) (dp : list string) :
  true_predictions_row all_labels prediction label = inr dp ->
  List.length dp
  = List.length (filter not_ignored
      (firstn (Nat.min (List.length prediction) (List.length label)) label)).
Proof.
  intro H. apply mapM_length in H. rewrite H.
  rewrite <- combine_snd_firstn. apply (filter_snd_length not_ignored).
Qed.

Lemma row_length_label (prediction label : list Z) (dl : list string) :
  true_labels_row all_labels prediction label = inr dl ->
  List.length dl
  = List.length (filter not_ignored
      (firstn (Nat.min (List.length prediction) (List.length label)) label)).
Proof.
  intro H. apply mapM_length in H. rewrite H.
  rewrite <- combine_snd_firstn. apply (filter_snd_length not_ignored).
Qed.

Lemma decode_inr (predictions labels : list (list Z)) (tp tl : list (list string)) :
  decode all_labels predictions labels = inr (tp, tl) <->
  true_predictions all_labels predictions labels = inr tp
  /\ true_labels all_labels predictions labels = inr tl.
Proof.
  unfold decode. split.
  - intro H. apply bind_inr in H as (tp' & Htp & H).
    apply bind_inr in H as (tl' & Htl & H). injection H as <- <-. auto.
  - intros (-> & ->). reflexivity.
Qed.

Lemma decode_rows (predictions labels : list (list Z)) (tp tl : list (list string)) :
  decode all_labels predictions labels = inr (tp, tl) ->
  forall e prediction label,
    nth_error predictions e = Some prediction ->
    nth_error labels e = Some label ->
    exists dp dl,
      nth_error tp e = Some dp /\ nth_error tl e = Some dl
      /\ true_predictions_row all_labels prediction label = inr dp
      /\ true_labels_row all_labels prediction label = inr dl.
Proof.
  intros H e prediction label Hp Hl. apply decode_inr in H as (Htp & Htl).
  pose proof (nth_error_combine _ _ _ _ _ Hp Hl) as Hc.
  destruct (mapM_nth_error _ _ _ Htp _ _ Hc) as (dp & H1 & H2).
  destruct (mapM_nth_error _ _ _ Htl _ _ Hc) as (dl & H3 & H4).
  exists dp, dl. auto.
Qed.

End RowProperties.

(** ** The metric adapter *)

Section MetricAdapter.

Variable all_labels : list string.
Variable score : Type.
Variable leb : score -> score -> bool.

Lemma decoded_inr (predictions : list (list (list score))) (labels : list (list Z))
    (tp tl : list (list string)) :
  decoded all_labels leb (predictions, labels) = inr (tp, tl) ->
  exists ids,
    np_argmax_axis2 leb predictions = inr ids
    /\ decode all_labels ids labels = inr (tp, tl).
Proof.
  unfold decoded. intro H. apply bind_inr in H as (ids & Hids & H). eauto.
Qed.

(** [decoded] is what [compute_metrics] scores. *)
Lemma compute_metrics_decoded (p : list (list (list score)) * list (list Z)) :
  compute_metrics all_labels leb p
  = (d <- decoded all_labels leb p ;;
     results <- Seqeval.compute (fst d) (snd d) ;;
     ret {| precision := Seqeval.overall_precision results;
            recall := Seqeval.overall_recall results;
            f1 := Seqeval.overall_f1 results;
            accuracy := Seqeval.overall_accuracy results |}).
Proof.
  destruct p as [predictions labels]. unfold compute_metrics, decoded, decode.
  destruct (np_argmax_axis2 leb predictions) as [e | ids]; simpl; [reflexivity |].
  destruct (true_predictions all_labels ids labels) as [e | tp]; simpl; [reflexivity |].
  destruct (true_labels all_labels ids labels) as [e | tl]; reflexivity.
Qed.

Lemma filter_kept_all_ignored (prediction label : list Z) :
  Forall (fun l => l = IGNORE) label ->
  filter kept (combine prediction label) = [].
Proof.
  intro H. revert prediction.
  induction H as [| l label Hl _ IH]; intros [| p prediction]; simpl; try reflexivity.
  subst l. apply IH.
Qed.

(** C1: a position of an example is dropped from the decoded output exactly
    when its reference id is the sentinel -100; the positions that survive
    ([idx], strictly increasing) are the ones decoded, in that order, into
    both the predicted and the reference sequence of the example. *)
Theorem sentinel_positions_dropped
    (predictions : list (list (list score))) (labels : list (list Z))
    (tp tl : list (list string)) :
  decoded all_labels leb (predictions, labels) = inr (tp, tl) ->
  exists ids,
    np_argmax_axis2 leb predictions = inr ids
    /\ forall e prediction label,
         nth_error ids e = Some prediction ->
         nth_error labels e = Some label ->
         exists dp dl idx,
           nth_error tp e = Some dp /\ nth_error tl e = Some dl
           /\ decoded_at all_labels prediction label idx dp dl.
Proof.
  intro H. apply decoded_inr in H as (ids & Hids & Hdec).
  exists ids. split; [assumption |].
  intros e prediction label Hp Hl.
  destruct (decode_rows _ _ _ _ _ Hdec _ _ _ Hp Hl) as (dp & dl & H1 & H2 & H3 & H4).
  destruct (row_decoded_at _ _ _ _ _ H3 H4) as (idx & Hidx).
  exists dp, dl, idx. auto.
Qed.

(** C2: for every example the decoded predicted sequence and the decoded
    reference sequence have the same length. *)
Theorem decoded_sequences_equal_length
    (p : list (list (list score)) * list (list Z)) (tp tl : list (list string)) :
  decoded all_labels leb p = inr (tp, tl) ->
  Forall2 (fun dp dl => List.length dp = List.length dl) tp tl.
Proof.
  destruct p as [predictions labels]. intro H.
  apply decoded_inr in H as (ids & _ & Hdec).
  apply decode_inr in Hdec as (Htp & Htl).
  apply mapM_Forall2 in Htp, Htl.
  eapply Forall2_common_left; [| exact Htp | exact Htl].
  simpl. intros [prediction label] dp dl Hp Hl. simpl in *.
  apply mapM_length in Hp, Hl. congruence.
Qed.

Lemma true_predictions_row_only_IndexError (prediction label : list Z) (e : exn) :
  true_predictions_row all_labels prediction label = inl e -> e = IndexError.
Proof.
  apply mapM_only_raises. intros pl e'. apply getitem_only_IndexError.
Qed.

Lemma true_labels_row_only_IndexError (prediction label : list Z) (e : exn) :
  true_labels_row all_labels prediction label = inl e -> e = IndexError.
Proof.
  apply mapM_only_raises. intros pl e'. apply getitem_only_IndexError.
Qed.

Lemma in_combine_nth_error {A B : Type} (xs : list A) (ys : list B) (i : nat)
    (x : A) (y : B) :
  nth_error xs i = Some x -> nth_error ys i = Some y -> In (x, y) (combine xs ys).
Proof.
  intros Hx Hy. eapply nth_error_In. apply nth_error_combine; eassumption.
Qed.

(** C5, as the code has it: when, at a position paired by zip whose
    reference id is not -100, the predicted id or the reference id is no
    index of the vocabulary list, [compute_metrics] raises [IndexError]. *)
Theorem invalid_id_at_kept_position_raises
    (predictions : list (list (list score))) (labels : list (list Z))
    (ids : list (list Z)) (e i : nat) (prediction label : list Z) (p l : Z) :
  np_argmax_axis2 leb predictions = inr ids ->
  nth_error ids e = Some prediction ->
  nth_error labels e = Some label ->
  nth_error prediction i = Some p ->
  nth_error label i = Some l ->
  l <> IGNORE ->
  ~ valid_index (List.length all_labels) p \/ ~ valid_index (List.length all_labels) l ->
  compute_metrics all_labels leb (predictions, labels) = inl IndexError.
Proof.
  intros Hids He He' Hi Hi' Hl Hbad.
  unfold compute_metrics. rewrite Hids. simpl.
  assert (Hrow : In (prediction, label) (combine ids labels))
    by (eapply in_combine_nth_error; eassumption).
  assert (Hpos : In (p, l) (filter kept (combine prediction label))).
  { apply filter_In. split; [eapply in_combine_nth_error; eassumption |].
    now apply kept_spec. }
  destruct Hbad as [Hbad | Hbad].
  - assert (Htp : true_predictions all_labels ids labels = inl IndexError).
    { apply mapM_raises.
      - intros pl e'. apply true_predictions_row_only_IndexError.
      - exists (prediction, label). split; [assumption |]. simpl.
        apply mapM_raises.
        + intros pl e'. apply getitem_only_IndexError.
        + exists (p, l). split; [assumption |]. now apply getitem_invalid. }
    rewrite Htp. reflexivity.
  - destruct (true_predictions all_labels ids labels) as [e0 | tp] eqn:Etp; simpl.
    + f_equal. revert Etp. apply mapM_only_raises.
      intros pl e'. apply true_predictions_row_only_IndexError.
    + assert (Htl : true_labels all_labels ids labels = inl IndexError).
      { apply mapM_raises.
        - intros pl e'. apply true_labels_row_only_IndexError.
        - exists (prediction, label). split; [assumption |]. simpl.
          apply mapM_raises.
          + intros pl e'. apply getitem_only_IndexError.
          + exists (p, l). split; [assumption |]. now apply getitem_invalid. }
      rewrite Htl. reflexivity.
Qed.

End MetricAdapter.

(** ** The predicted ids *)

Section ArgmaxProperties.

Variable all_labels : list string.
Variable score : Type.
Variable leb : score -> score -> bool.

(** Scores free of NaN are totally ordered by [<=]. *)
Hypothesis leb_total : forall x y, leb x y = true \/ leb y x = true.
Hypothesis leb_trans : forall x y z, leb x y = true -> leb y z = true -> leb x z = true.

Lemma nth_error_snoc_inv {A : Type} (pre : list A) (x : A) (j : nat) (y : A) :
  nth_error (pre ++ [x]) j = Some y ->
  ((j < List.length pre)%nat /\ nth_error pre j = Some y)
  \/ (j = List.length pre /\ y = x).
Proof.
  intro H. destruct (Nat.lt_ge_cases j (List.length pre)) as [Hlt | Hge].
  - left. split; [assumption |]. now rewrite nth_error_app1 in H.
  - right. rewrite nth_error_app2 in H by assumption.
    destruct (j - List.length pre)%nat as [| d] eqn:E; simpl in H.
    + split; [lia | congruence].
    + destruct d; discriminate.
Qed.

Lemma maximum_at_keep (pre : list score) (mp x : score) (k : nat) :
  maximum_at leb pre mp k -> leb x mp = true -> maximum_at leb (pre ++ [x]) mp k.
Proof.
  intros (Hk & Hge & Hlt) Hx.
  assert (Hin : (k < List.length pre)%nat) by (apply nth_error_Some; congruence).
  split; [| split].
  - now rewrite nth_error_app1.
  - intros j y Hj. apply nth_error_snoc_inv in Hj as [(_ & Hj) | (_ & ->)];
      [eapply Hge; eassumption | assumption].
  - intros j y Hjk Hj. apply nth_error_snoc_inv in Hj as [(_ & Hj) | (Hj & _)];
      [eapply Hlt; eassumption | lia].
Qed.

Lemma maximum_at_replace (pre : list score) (mp x : score) (k : nat) :
  maximum_at leb pre mp k -> leb x mp = false ->
  maximum_at leb (pre ++ [x]) x (List.length pre).
Proof.
  intros (Hk & Hge & Hlt) Hx.
  assert (Hmx : leb mp x = true) by (destruct (leb_total x mp); congruence).
  split; [| split].
  - rewrite nth_error_app2 by lia. now rewrite Nat.sub_diag.
  - intros j y Hj. apply nth_error_snoc_inv in Hj as [(_ & Hj) | (_ & ->)].
    + eapply leb_trans; [eapply Hge; eassumption | assumption].
    + destruct (leb_total x x); assumption.
  - intros j y Hjk Hj. rewrite nth_error_app1 in Hj by assumption.
    destruct (leb x y) eqn:Exy; [| reflexivity].
    rewrite (leb_trans x y mp Exy (Hge _ _ Hj)) in Hx. discriminate.
Qed.

Lemma leb_total_isnan (x : score) : isnan leb x = false.
Proof.
  unfold isnan. destruct (leb_total x x) as [H | H]; now rewrite H.
Qed.

Lemma argmax_scan_first_maximum (ip pre : list score) (mp : score) (max_ind : nat) :
  maximum_at leb pre mp max_ind ->
  first_maximum leb (pre ++ ip) (argmax_scan leb mp max_ind (List.length pre) ip).
Proof.
  revert pre mp max_ind.
  induction ip as [| x rest IH]; intros pre mp max_ind Hmax; simpl.
  - rewrite app_nil_r. exists mp. assumption.
  - replace (pre ++ x :: rest) with ((pre ++ [x]) ++ rest)
      by (rewrite <- app_assoc; reflexivity).
    destruct (leb x mp) eqn:Exm.
    + pose proof (IH (pre ++ [x]) mp max_ind (maximum_at_keep _ _ _ _ Hmax Exm)) as H.
      rewrite last_length in H. exact H.
    + rewrite (leb_total_isnan x).
      pose proof (IH (pre ++ [x]) x (List.length pre)
                    (maximum_at_replace _ _ _ _ Hmax Exm)) as H.
      rewrite last_length in H. exact H.
Qed.

Lemma argmax_first_maximum (v : list score) :
  v <> [] -> exists k, argmax leb v = inr (Z.of_nat k) /\ first_maximum leb v k.
Proof.
  destruct v as [| x rest]; [congruence | intros _].
  exists (argmax_scan leb x 0 1 rest).
  split; [simpl; now rewrite (leb_total_isnan x) |].
  apply (argmax_scan_first_maximum rest [x] x 0).
  split; [reflexivity | split].
  - intros [| [| j]] y Hj; simpl in Hj; try discriminate.
    injection Hj as <-. destruct (leb_total x x); assumption.
  - intros j y Hj. lia.
Qed.

(** C6: on a tensor with a non-empty score vector at every position,
    [np.argmax(predictions, axis=2)] returns, for every example [e] and
    token position [j], the index of the first largest entry of the score
    vector at that position (the last axis), and these indices are the
    predicted ids that [compute_metrics] decodes. *)
Theorem predicted_id_is_argmax (predictions : list (list (list score))) :
  (forall row v, In row predictions -> In v row -> v <> []) ->
  exists ids,
    np_argmax_axis2 leb predictions = inr ids
    /\ (forall labels,
          decoded all_labels leb (predictions, labels)
          = decode all_labels ids labels)
    /\ forall e j row v,
         nth_error predictions e = Some row ->
         nth_error row j = Some v ->
         exists prediction k,
           nth_error ids e = Some prediction
           /\ nth_error prediction j = Some (Z.of_nat k)
           /\ first_maximum leb v k.
Proof.
  intro Hne.
  destruct (mapM_total (mapM (argmax leb)) predictions) as (ids & Hids).
  { intros row Hrow. apply mapM_total. intros v Hv.
    destruct (argmax_first_maximum v (Hne _ _ Hrow Hv)) as (k & Hk & _). eauto. }
  exists ids. split; [exact Hids | split].
  - intro labels. unfold decoded, np_argmax_axis2. rewrite Hids. reflexivity.
  - intros e j row v He Hj.
    destruct (mapM_nth_error _ _ _ Hids _ _ He) as (prediction & Hp & Hrow).
    destruct (mapM_nth_error _ _ _ Hrow _ _ Hj) as (p & Hpj & Hv).
    destruct (argmax_first_maximum v) as (k & Hk & Hmax).
    { eapply Hne; eapply nth_error_In; eassumption. }
    exists prediction, k. repeat split; try assumption. congruence.
Qed.

End ArgmaxProperties.

(** ** The evaluator on identical sequences *)

Lemma filter_all {A : Type} (f : A -> bool) (xs : list A) :
  (forall x, In x xs -> f x = true) -> filter f xs = xs.
Proof.
  induction xs as [| x xs IH]; intro H; simpl; [reflexivity |].
  rewrite (H x (or_introl eq_refl)). f_equal. apply IH. intros y Hy. apply H. now right.
Qed.

Lemma in_combine_same {A : Type} (xs : list A) (a b : A) :
  In (a, b) (combine xs xs) -> a = b.
Proof.
  induction xs as [| x xs IH]; simpl; [contradiction |].
  intros [E | H]; [congruence | auto].
Qed.

Lemma Qred_ratio_one (k : nat) :
  Qred (Z.of_nat (S k) # Pos.of_nat (S k)) = 1%Q.
Proof.
  change 1%Q with (Qred 1). apply Qred_complete.
  unfold Qeq, Qnum, Qden. rewrite <- Pos.of_nat_succ, Zpos_P_of_succ_nat. lia.
Qed.

Lemma prf_divide_same (n : nat) : n <> 0%nat -> Seqeval.prf_divide n n = 1%Q.
Proof.
  destruct n as [| k]; [congruence | intros _]. apply Qred_ratio_one.
Qed.

Lemma chunk_scan_all_O (n : nat) (i : Z) (prev_type : string) (begin_offset : Z)
    (chunks : list Seqeval.entity) :
  Seqeval.chunk_scan (repeat "O" n) i "O" prev_type begin_offset chunks = inr chunks.
Proof.
  revert i prev_type begin_offset.
  induction n as [| n IH]; intros i prev_type begin_offset; [reflexivity |].
  cbn. apply IH.
Qed.

Lemma flat_map_no_tags (tl : list (list string)) :
  List.concat tl = [] ->
  flat_map (fun sublist => sublist ++ ["O"]) tl = repeat "O" (List.length tl).
Proof.
  induction tl as [| s tl IH]; simpl; [reflexivity |].
  intro H. apply app_eq_nil in H as (-> & H). simpl. f_equal. now apply IH.
Qed.

(** Sequences without a single tag hold no span. *)
Lemma get_entities_no_tags (tl : list (list string)) :
  List.concat tl = [] -> Seqeval.get_entities tl = inr [].
Proof.
  intro H. unfold Seqeval.get_entities. rewrite (flat_map_no_tags tl H).
  change ["O"] with (repeat "O" 1). rewrite <- repeat_app.
  apply chunk_scan_all_O.
Qed.

Lemma check_consistent_length_same (tl : list (list string)) :
  tl <> [] -> Seqeval.check_consistent_length tl tl = inr tt.
Proof.
  intro H. unfold Seqeval.check_consistent_length.
  destruct tl as [| s tl]; [congruence |].
  destruct (list_eq_dec _ _ _) as [_ | N]; [reflexivity | congruence].
Qed.

Lemma accuracy_score_same (tl : list (list string)) :
  List.concat tl <> [] -> Seqeval.accuracy_score tl tl = inr 1%Q.
Proof.
  intro H. unfold Seqeval.accuracy_score.
  rewrite filter_all.
  2:{ intros [a b] Hin. apply in_combine_same in Hin. subst. apply String.eqb_refl. }
  rewrite length_combine, Nat.min_id.
  destruct (List.length (List.concat tl)) as [| k] eqn:E.
  - apply length_zero_iff_nil in E. contradiction.
  - unfold ret. f_equal. apply Qred_ratio_one.
Qed.

Lemma precision_recall_fscore_same (tl : list (list string)) (es : list Seqeval.entity) :
  Seqeval.get_entities tl = inr es -> es <> [] ->
  Seqeval.precision_recall_fscore tl tl = inr (1%Q, 1%Q, 1%Q).
Proof.
  intros Hes Hne. unfold Seqeval.precision_recall_fscore. rewrite Hes. simpl.
  set (S := nodup Seqeval.entity_eq_dec es).
  rewrite filter_all.
  2:{ intros e He. apply existsb_exists. exists e. split; [assumption |].
      unfold Seqeval.entity_eqb. destruct (Seqeval.entity_eq_dec e e); congruence. }
  assert (HS : List.length S <> 0%nat).
  { intro E. apply length_zero_iff_nil in E. destruct es as [| e es]; [congruence |].
    assert (In e S) by (apply nodup_In; now left). rewrite E in H. contradiction. }
  rewrite (prf_divide_same _ HS). reflexivity.
Qed.

(** A batch scored against itself, holding at least one span. *)
Lemma compute_same (tl : list (list string)) (es : list Seqeval.entity) :
  Seqeval.get_entities tl = inr es -> es <> [] ->
  Seqeval.compute tl tl
  = inr {| Seqeval.overall_precision := 1; Seqeval.overall_recall := 1;
           Seqeval.overall_f1 := 1; Seqeval.overall_accuracy := 1 |}.
Proof.
  intros Hes Hne.
  assert (Htags : List.concat tl <> []).
  { intro E. rewrite (get_entities_no_tags tl E) in Hes. congruence. }
  assert (Htl : tl <> []) by (intro E; subst; now apply Htags).
  unfold Seqeval.compute.
  rewrite (check_consistent_length_same tl Htl). simpl.
  rewrite (precision_recall_fscore_same tl es Hes Hne). simpl.
  rewrite (accuracy_score_same tl Htags). reflexivity.
Qed.

(** ** The returned scores *)

Section Scores.

Variable all_labels : list string.
Variable score : Type.
Variable leb : score -> score -> bool.

Lemma matching_rows_decode_alike (prediction label : list Z) :
  (forall p l, In (p, l) (combine prediction label) -> l <> IGNORE -> p = l) ->
  true_predictions_row all_labels prediction label
  = true_labels_row all_labels prediction label.
Proof.
  intro H. apply mapM_ext_in. intros [p l] Hin. simpl.
  apply filter_In in Hin as (Hin & K). f_equal.
  apply H; [assumption | now apply (kept_spec p l)].
Qed.

(** C7, as the code has it: when the argmax at every kept position equals
    the reference id there and the decoded reference sequences hold at
    least one entity span, the values returned under precision, recall, f1
    and accuracy are all 1. *)
Theorem perfect_predictions_score_one
    (predictions : list (list (list score))) (labels ids : list (list Z))
    (tl : list (list string)) (es : list Seqeval.entity) :
  np_argmax_axis2 leb predictions = inr ids ->
  (forall prediction label p l,
     In (prediction, label) (combine ids labels) ->
     In (p, l) (combine prediction label) -> l <> IGNORE -> p = l) ->
  true_labels all_labels ids labels = inr tl ->
  Seqeval.get_entities tl = inr es ->
  es <> [] ->
  compute_metrics all_labels leb (predictions, labels)
  = inr {| precision := 1; recall := 1; f1 := 1; accuracy := 1 |}.
Proof.
  intros Hids Hmatch Htl Hes Hne.
  assert (Htp : true_predictions all_labels ids labels = inr tl).
  { rewrite <- Htl. apply mapM_ext_in. intros [prediction label] Hin. simpl.
    apply matching_rows_decode_alike. intros p l. now apply Hmatch. }
  unfold compute_metrics. rewrite Hids. simpl. rewrite Htp. simpl. rewrite Htl. simpl.
  rewrite (compute_same tl es Hes Hne). reflexivity.
Qed.

(** C3: with labels [[0, -100, 1]], a predictions tensor whose argmax is
    [[0, x, 1]] for whatever [x], and the vocabulary ["O", "B-PER"], both
    decoded sequences are ["O", "B-PER"] and the returned accuracy is 1. *)
Theorem scenario_masked_middle
    (predictions : list (list (list score))) (x : Z) :
  np_argmax_axis2 leb predictions = inr [[0; x; 1]] ->
  decoded ["O"; "B-PER"] leb (predictions, [[0; -100; 1]])
  = inr ([["O"; "B-PER"]], [["O"; "B-PER"]])
  /\ exists m,
       compute_metrics ["O"; "B-PER"] leb (predictions, [[0; -100; 1]]) = inr m
       /\ accuracy m = 1%Q.
Proof.
  intro Hids. unfold decoded, compute_metrics. rewrite Hids. split.
  - reflexivity.
  - eexists. split; reflexivity.
Qed.

End Scores.

(** ** The datasets given to the trainer *)

Section DatasetProperties.

Variable column : Type.

Lemma mem_spec (c : string) (names : list string) :
  mem c names = true <-> In c names.
Proof.
  unfold mem. rewrite existsb_exists. split.
  - intros (x & Hin & E). apply String.eqb_eq in E. now subst.
  - intro H. exists c. split; [assumption | apply String.eqb_refl].
Qed.

Lemma columns_to_remove_spec (d : Dataset column) (c : string) :
  In c (columns_to_remove d) <->
  In c (column_names d) /\ c <> "input_ids" /\ c <> "labels".
Proof.
  unfold columns_to_remove. rewrite filter_In, negb_true_iff.
  split; intros (Hin & H); split; try assumption.
  - split; intro E; subst c; simpl in H; discriminate.
  - destruct (mem c ["input_ids"; "labels"]) eqn:M; [| reflexivity].
    apply mem_spec in M. simpl in M. intuition congruence.
Qed.

Lemma remove_columns_names (d d' : Dataset column) (names : list string) :
  remove_columns d names = inr d' ->
  forall c, In c (column_names d') <-> In c (column_names d) /\ ~ In c names.
Proof.
  unfold remove_columns. destruct (forallb _ names); [| discriminate].
  intros [= <-] c. unfold column_names. rewrite !in_map_iff. split.
  - intros ([k v] & <- & Hin). apply filter_In in Hin as (Hin & Hk). simpl in *.
    split; [exists (k, v); auto |].
    intro Hc. apply mem_spec in Hc. rewrite Hc in Hk. discriminate.
  - intros (([k v] & <- & Hin) & Hn). exists (k, v). split; [reflexivity |].
    apply filter_In. split; [assumption |]. simpl in *.
    destruct (mem k names) eqn:M; [| reflexivity].
    apply mem_spec in M. contradiction.
Qed.

Lemma remove_columns_total (d : Dataset column) (names : list string) :
  (forall c, In c names -> In c (column_names d)) ->
  exists d', remove_columns d names = inr d'.
Proof.
  intro H. unfold remove_columns.
  replace (forallb _ names) with true; [eexists; reflexivity |].
  symmetry. apply forallb_forall. intros c Hc. apply mem_spec. now apply H.
Qed.

(** C9, as the code has it: when the two datasets have the same column
    names, input_ids and labels among them, [get_trainer] succeeds and the
    train dataset and the validation dataset given to the trainer each have
    the columns input_ids and labels and no other. *)
Theorem trainer_datasets_have_two_columns (train val : Dataset column) :
  (forall c, In c (column_names train) <-> In c (column_names val)) ->
  In "input_ids" (column_names train) ->
  In "labels" (column_names train) ->
  exists t,
    get_trainer train val = inr t
    /\ (forall c, In c (column_names (train_dataset t)) <->
                  c = "input_ids" \/ c = "labels")
    /\ (forall c, In c (column_names (eval_dataset t)) <->
                  c = "input_ids" \/ c = "labels").
Proof.
  intros Hsame Hi Hl. unfold get_trainer.
  destruct (remove_columns_total train (columns_to_remove train)) as (t' & Ht).
  { intros c Hc. now apply columns_to_remove_spec in Hc. }
  destruct (remove_columns_total val (columns_to_remove train)) as (v' & Hv).
  { intros c Hc. apply columns_to_remove_spec in Hc. now apply Hsame. }
  rewrite Ht, Hv. simpl. eexists. split; [reflexivity |]. simpl.
  pose proof (remove_columns_names _ _ _ Ht) as Nt.
  pose proof (remove_columns_names _ _ _ Hv) as Nv.
  split; intro c; [rewrite Nt | rewrite Nv, <- Hsame];
    rewrite columns_to_remove_spec;
    (split; [intros (Hin & Hn) | intros [-> | ->]; split; try assumption]).
  - destruct (string_dec c "input_ids"); [now left |].
    destruct (string_dec c "labels"); [now right | exfalso; auto].
  - intros (_ & N & _). congruence.
  - intros (_ & _ & N). congruence.
  - destruct (string_dec c "input_ids"); [now left |].
    destruct (string_dec c "labels"); [now right | exfalso; auto].
  - intros (_ & N & _). congruence.
  - intros (_ & _ & N). congruence.
Qed.

End DatasetProperties.

(** * Concrete runs *)

Lemma Zleb_total (x y : Z) : (x <=? y) = true \/ (y <=? x) = true.
Proof.
  rewrite !Z.leb_le. lia.
Qed.

Lemma Zleb_trans (x y z : Z) :
  (x <=? y) = true -> (y <=? z) = true -> (x <=? z) = true.
Proof.
  rewrite !Z.leb_le. lia.
Qed.

Lemma sentinel_positions_dropped_run :
  exists ids,
    np_argmax_axis2 Z.leb sample_predictions = inr ids
    /\ forall e prediction label,
         nth_error ids e = Some prediction ->
         nth_error sample_labels e = Some label ->
         exists dp dl idx,
           nth_error [["O"; "B-PER"]] e = Some dp
           /\ nth_error [["O"; "B-PER"]] e = Some dl
           /\ decoded_at sample_vocabulary prediction label idx dp dl.
Proof.
  apply (sentinel_positions_dropped sample_vocabulary Z Z.leb
           sample_predictions sample_labels).
  reflexivity.
Defined.

Lemma decoded_sequences_equal_length_run :
  decoded sample_vocabulary Z.leb (sample_predictions, sample_labels)
  = inr ([["O"; "B-PER"]], [["O"; "B-PER"]])
  /\ Forall2 (fun dp dl : list string => List.length dp = List.length dl)
       [["O"; "B-PER"]] [["O"; "B-PER"]].
Proof.
  split; [reflexivity |].
  apply (decoded_sequences_equal_length sample_vocabulary Z Z.leb
           (sample_predictions, sample_labels)).
  reflexivity.
Defined.

Lemma scenario_masked_middle_run :
  np_argmax_axis2 Z.leb sample_predictions = inr [[0; 2; 1]]
  /\ decoded ["O"; "B-PER"] Z.leb (sample_predictions, [[0; -100; 1]])
     = inr ([["O"; "B-PER"]], [["O"; "B-PER"]])
  /\ exists m,
       compute_metrics ["O"; "B-PER"] Z.leb (sample_predictions, [[0; -100; 1]]) = inr m
       /\ accuracy m = 1%Q.
Proof.
  split; [reflexivity |].
  apply (scenario_masked_middle Z Z.leb sample_predictions 2). reflexivity.
Defined.

Lemma invalid_id_at_kept_position_raises_run :
  ~ valid_index (List.length sample_vocabulary) 2
  /\ compute_metrics sample_vocabulary Z.leb ([[[0; 0; 1]]], [[0]]) = inl IndexError.
Proof.
  assert (H : ~ valid_index (List.length sample_vocabulary) 2)
    by (unfold valid_index; simpl; lia).
  split; [exact H |].
  apply (invalid_id_at_kept_position_raises sample_vocabulary Z Z.leb
           [[[0; 0; 1]]] [[0]] [[2]] 0 0 [2] [0] 2 0);
    try reflexivity.
  - unfold IGNORE. lia.
  - left. exact H.
Defined.

(** C5 as stated fails twice over.  A predicted id outside the vocabulary
    goes unnoticed where the reference id is -100: the tensor below has
    argmax 2 at the ignored position and [compute_metrics] returns.  And a
    negative reference id other than -100 is decoded from the end of the
    vocabulary: the reference id -1 becomes "B-PER". *)
Lemma out_of_range_ids_decoded_silently :
  (np_argmax_axis2 Z.leb [[[0; 0; 1]; [1; 0; 0]]] = inr [[2; 0]]
   /\ ~ (0 <= 2 < Z.of_nat (List.length sample_vocabulary))
   /\ compute_metrics sample_vocabulary Z.leb ([[[0; 0; 1]; [1; 0; 0]]], [[-100; 0]])
      = inr {| precision := 0; recall := 0; f1 := 0; accuracy := 1 |})
  /\ (~ (0 <= -1 < Z.of_nat (List.length sample_vocabulary))
      /\ decoded sample_vocabulary Z.leb ([[[1; 0]]], [[-1]])
         = inr ([["O"]], [["B-PER"]])).
Proof.
  repeat split; try reflexivity; simpl; lia.
Qed.

Lemma predicted_id_is_argmax_run :
  exists ids,
    np_argmax_axis2 Z.leb sample_predictions = inr ids
    /\ (forall labels,
          decoded sample_vocabulary Z.leb (sample_predictions, labels)
          = decode sample_vocabulary ids labels)
    /\ forall e j row v,
         nth_error sample_predictions e = Some row ->
         nth_error row j = Some v ->
         exists prediction k,
           nth_error ids e = Some prediction
           /\ nth_error prediction j = Some (Z.of_nat k)
           /\ first_maximum Z.leb v k.
Proof.
  apply (predicted_id_is_argmax sample_vocabulary Z Z.leb Zleb_total Zleb_trans
           sample_predictions).
  intros row v Hrow Hv. unfold sample_predictions in Hrow.
  destruct Hrow as [<- | []].
  destruct Hv as [<- | [<- | [<- | []]]]; discriminate.
Defined.

Lemma perfect_predictions_score_one_run :
  Seqeval.get_entities [["B-PER"]] = inr [("PER", 0, 0)]
  /\ compute_metrics sample_vocabulary Z.leb ([[[0; 1]]], [[1]])
     = inr {| precision := 1; recall := 1; f1 := 1; accuracy := 1 |}.
Proof.
  split; [reflexivity |].
  apply (perfect_predictions_score_one sample_vocabulary Z Z.leb
           [[[0; 1]]] [[1]] [[1]] [["B-PER"]] [("PER", 0, 0)]);
    try reflexivity.
  - intros prediction label p l Hrow Hpos _.
    destruct Hrow as [Hrow | []]. injection Hrow as <- <-.
    destruct Hpos as [Hpos | []]. injection Hpos as <- <-. reflexivity.
  - discriminate.
Defined.

(** C7 as stated fails where the reference tags hold no entity: the
    argmax equals the only reference id, "O", and precision, recall and f1
    come out as 0. *)
Lemma perfect_predictions_without_entity :
  np_argmax_axis2 Z.leb [[[1; 0]]] = inr [[0]]
  /\ compute_metrics sample_vocabulary Z.leb ([[[1; 0]]], [[0]])
     = inr {| precision := 0; recall := 0; f1 := 0; accuracy := 1 |}.
Proof.
  split; reflexivity.
Qed.

Lemma trainer_datasets_have_two_columns_run :
  exists t,
    get_trainer sample_train sample_train = inr t
    /\ (forall c, In c (column_names (train_dataset t)) <->
                  c = "input_ids" \/ c = "labels")
    /\ (forall c, In c (column_names (eval_dataset t)) <->
                  c = "input_ids" \/ c = "labels").
Proof.
  apply (trainer_datasets_have_two_columns unit sample_train sample_train).
  - intro c. split; intro H; exact H.
  - simpl. auto.
  - simpl. auto.
Defined.

(** C9 as stated fails when the validation dataset has a column the train
    dataset lacks: the columns to remove are read off the train dataset,
    so the column stays. *)
Lemma validation_keeps_extra_column :
  get_trainer sample_train sample_val
  = inr {| train_dataset := [("input_ids", tt); ("labels", tt)];
           eval_dataset := [("input_ids", tt); ("labels", tt); ("extra", tt)] |}.
Proof.
  reflexivity.
Qed.

(** * Further properties of the decoding *)

Lemma mapM_app {A B : Type} (f : A -> result B) (xs ys : list A) :
  mapM f (xs ++ ys)
  = (a <- mapM f xs ;; b <- mapM f ys ;; ret (a ++ b)).
Proof.
  induction xs as [| x xs IH]; simpl.
  - destruct (mapM f ys); reflexivity.
  - destruct (f x) as [e | y]; simpl; [reflexivity |]. rewrite IH.
    destruct (mapM f xs) as [e | a]; simpl; [reflexivity |].
    destruct (mapM f ys); reflexivity.
Qed.

Lemma zip_app {A B : Type} (xs xs' : list A) (ys ys' : list B) :
  List.length xs = List.length ys ->
  combine (xs ++ xs') (ys ++ ys') = combine xs ys ++ combine xs' ys'.
Proof.
  revert ys; induction xs as [| x xs IH]; intros [| y ys] H; simpl in *;
    try discriminate; [reflexivity |].
  f_equal. apply IH. congruence.
Qed.

Lemma mapM_inr_In {A B : Type} (f : A -> result B) (xs : list A) (ys : list B) :
  mapM f xs = inr ys -> forall x, In x xs -> exists y, In y ys /\ f x = inr y.
Proof.
  intro H. apply mapM_Forall2 in H.
  induction H as [| x0 y0 xs ys Hxy _ IH]; intros x Hin; simpl in *; [contradiction |].
  destruct Hin as [<- | Hin]; [eauto |].
  destruct (IH x Hin) as (y & Hy & E). eauto.
Qed.

Lemma mapM_Forall {A B : Type} (f : A -> result B) (P : B -> Prop)
    (xs : list A) (ys : list B) :
  (forall x y, In x xs -> f x = inr y -> P y) ->
  mapM f xs = inr ys -> Forall P ys.
Proof.
  intros HP H. apply mapM_Forall2 in H.
  induction H as [| x y xs ys Hxy _ IH]; constructor.
  - apply (HP x y); [now left | assumption].
  - apply IH. intros x' y' Hin. apply HP. now right.
Qed.

Lemma getitem_inr_valid {A : Type} (xs : list A) (i : Z) (x : A) :
  getitem xs i = inr x -> valid_index (List.length xs) i.
Proof.
  intro H. unfold valid_index.
  destruct (Z_lt_dec i (- Z.of_nat (List.length xs))) as [L | L].
  - rewrite getitem_invalid in H by (unfold valid_index; lia). discriminate.
  - destruct (Z_lt_dec i (Z.of_nat (List.length xs))) as [U | U]; [lia |].
    rewrite getitem_invalid in H by (unfold valid_index; lia). discriminate.
Qed.

Lemma getitem_tag_of (all_labels : list string) (i : Z) (t : string) :
  getitem all_labels i = inr t -> t = tag_of all_labels i.
Proof.
  intro H. pose proof (getitem_inr_valid _ _ _ H) as V.
  unfold valid_index in V. unfold getitem in H. unfold tag_of.
  set (n := Z.of_nat (List.length all_labels)) in *.
  assert (Hmod : i mod n = if i <? 0 then i + n else i).
  { destruct (Z.ltb_spec i 0).
    - symmetry. apply (Z.mod_unique i n (-1)); lia.
    - apply Z.mod_small. lia. }
  rewrite Hmod. set (j := if i <? 0 then i + n else i) in *.
  destruct ((j <? 0) || (n <=? j)); [discriminate |].
  destruct (nth_error all_labels (Z.to_nat j)) as [x |] eqn:E; [| discriminate].
  injection H as <-. symmetry. now apply nth_error_nth.
Qed.

Lemma getitem_In {A : Type} (xs : list A) (i : Z) (x : A) :
  getitem xs i = inr x -> In x xs.
Proof.
  unfold getitem. destruct ((_ <? 0) || _); [discriminate |].
  destruct (nth_error xs _) as [y |] eqn:E; [| discriminate].
  intros [= <-]. eapply nth_error_In; eassumption.
Qed.

Lemma mapM_inr_map {A B : Type} (f : A -> result B) (g : A -> B)
    (xs : list A) (ys : list B) :
  (forall x y, f x = inr y -> y = g x) ->
  mapM f xs = inr ys -> ys = map g xs.
Proof.
  intros Hg H. apply mapM_Forall2 in H.
  induction H as [| x y xs ys Hxy _ IH]; simpl; [reflexivity |].
  f_equal; [now apply Hg | exact IH].
Qed.

Lemma filter_kept_snd (xs : list (Z * Z)) :
  map snd (filter kept xs) = filter not_ignored (map snd xs).
Proof.
  induction xs as [| [p l] xs IH]; simpl; [reflexivity |].
  unfold kept at 1, not_ignored at 1. simpl.
  destruct (negb (l =? IGNORE)); simpl; congruence.
Qed.

Section DecodingFurther.

Variable all_labels : list string.

(** The examples are paired by zip as well: the batch is decoded up to the
    shorter of the two lists of rows, the surplus rows are never looked
    at, and a batch that decodes yields that many sequences on each
    side. *)
Theorem batch_is_truncated (ids labels : list (list Z)) :
  let m := Nat.min (List.length ids) (List.length labels) in
  decode all_labels ids labels
  = decode all_labels (firstn m ids) (firstn m labels)
  /\ forall tp tl,
       decode all_labels ids labels = inr (tp, tl) ->
       List.length tp = m /\ List.length tl = m.
Proof.
  intro m. split.
  - unfold decode, true_predictions, true_labels.
    pose proof (combine_truncate ids labels) as Hc. simpl in Hc. fold m in Hc.
    now rewrite Hc.
  - intros tp tl H. apply decode_inr in H as (Htp & Htl).
    apply mapM_length in Htp, Htl. rewrite length_combine in Htp, Htl.
    auto.
Qed.

Lemma row_valid_of_decoded (prediction label : list Z) (dp dl : list string) :
  true_predictions_row all_labels prediction label = inr dp ->
  true_labels_row all_labels prediction label = inr dl ->
  forall p l, In (p, l) (combine prediction label) -> l <> IGNORE ->
    valid_index (List.length all_labels) p
    /\ valid_index (List.length all_labels) l.
Proof.
  intros Hp Hl p l Hin Hk.
  assert (Hf : In (p, l) (filter kept (combine prediction label))).
  { apply filter_In. split; [assumption | now apply kept_spec]. }
  destruct (mapM_inr_In _ _ _ Hp _ Hf) as (tp & _ & Htp).
  destruct (mapM_inr_In _ _ _ Hl _ Hf) as (tl & _ & Htl).
  split; eapply getitem_inr_valid; eassumption.
Qed.

Lemma decode_succeeds_iff_ids_valid_aux (ids labels : list (list Z)) :
  (exists tp tl, decode all_labels ids labels = inr (tp, tl)) <->
  (forall prediction label p l,
     In (prediction, label) (combine ids labels) ->
     In (p, l) (combine prediction label) -> l <> IGNORE ->
     valid_index (List.length all_labels) p
     /\ valid_index (List.length all_labels) l).
Proof.
  split.
  - intros (tp & tl & H) prediction label p l Hrow Hpos Hk.
    apply decode_inr in H as (Htp & Htl).
    destruct (mapM_inr_In _ _ _ Htp _ Hrow) as (dp & _ & Hdp).
    destruct (mapM_inr_In _ _ _ Htl _ Hrow) as (dl & _ & Hdl).
    simpl in Hdp, Hdl.
    exact (row_valid_of_decoded _ _ _ _ Hdp Hdl p l Hpos Hk).
  - intro Hvalid.
    destruct (mapM_total (fun pl => true_predictions_row all_labels (fst pl) (snd pl))
                (combine ids labels)) as (tp & Htp).
    { intros [prediction label] Hrow. simpl.
      destruct (rows_total all_labels prediction label) as (dp & dl & Hp & _);
        [intros p l; now apply Hvalid | eauto]. }
    destruct (mapM_total (fun pl => true_labels_row all_labels (fst pl) (snd pl))
                (combine ids labels)) as (tl & Htl).
    { intros [prediction label] Hrow. simpl.
      destruct (rows_total all_labels prediction label) as (dp & dl & _ & Hl);
        [intros p l; now apply Hvalid | eauto]. }
    exists tp, tl. apply decode_inr. split; assumption.
Qed.

(** The decoding raises nothing but [IndexError], and it succeeds exactly
    when, in every pair of rows and at every position zip pairs whose
    reference id is not -100, the predicted id and the reference id are
    both indices Python accepts for the vocabulary. *)
Theorem decode_succeeds_iff_ids_valid (ids labels : list (list Z)) :
  ((exists tp tl, decode all_labels ids labels = inr (tp, tl)) <->
   (forall prediction label p l,
      In (prediction, label) (combine ids labels) ->
      In (p, l) (combine prediction label) -> l <> IGNORE ->
      valid_index (List.length all_labels) p
      /\ valid_index (List.length all_labels) l))
  /\ forall e, decode all_labels ids labels = inl e -> e = IndexError.
Proof.
  split; [apply decode_succeeds_iff_ids_valid_aux |].
  intros e H. unfold decode in H.
  destruct (true_predictions all_labels ids labels) as [e1 | tp] eqn:Etp; simpl in H.
  - injection H as <-. revert Etp. apply mapM_only_raises.
    intros pl e'. apply true_predictions_row_only_IndexError.
  - destruct (true_labels all_labels ids labels) as [e2 | tl] eqn:Etl; simpl in H;
      [| discriminate].
    injection H as <-. revert Etl. apply mapM_only_raises.
    intros pl e'. apply true_labels_row_only_IndexError.
Qed.

(** What a row decodes to, in closed form: the predicted sequence holds
    the tags of the predicted ids at the kept pairs, the reference
    sequence the tags of the non-sentinel ids among the first
    min(len(prediction), len(label)) reference ids; an id is turned into
    a tag by Python's indexing, so the id -k stands for the k-th tag from
    the end. *)
Theorem decoded_rows_closed_form (prediction label : list Z) (dp dl : list string) :
  true_predictions_row all_labels prediction label = inr dp ->
  true_labels_row all_labels prediction label = inr dl ->
  dp = map (tag_of all_labels) (map fst (filter kept (combine prediction label)))
  /\ dl = map (tag_of all_labels)
            (filter not_ignored
               (firstn (Nat.min (List.length prediction) (List.length label)) label)).
Proof.
  intros Hp Hl. split.
  - rewrite map_map. revert Hp. apply mapM_inr_map.
    intros pl t. apply getitem_tag_of.
  - rewrite <- combine_snd_firstn, <- filter_kept_snd, map_map.
    revert Hl. apply mapM_inr_map. intros pl t. apply getitem_tag_of.
Qed.

(** Every tag of a decoded sequence, predicted or reference, is an entry
    of the vocabulary. *)
Theorem decoded_tags_in_vocabulary (ids labels : list (list Z))
    (tp tl : list (list string)) :
  decode all_labels ids labels = inr (tp, tl) ->
  Forall (Forall (fun t => In t all_labels)) tp
  /\ Forall (Forall (fun t => In t all_labels)) tl.
Proof.
  intro H. apply decode_inr in H as (Htp & Htl). split.
  - revert Htp. apply mapM_Forall. intros [prediction label] dp _. simpl.
    apply mapM_Forall. intros pl t _. apply getitem_In.
  - revert Htl. apply mapM_Forall. intros [prediction label] dl _. simpl.
    apply mapM_Forall. intros pl t _. apply getitem_In.
Qed.

End DecodingFurther.

(** ** Ignored positions and the predicted ids *)

Lemma agree_where_kept_tail (p1 p2 l : Z) (r1 r2 label : list Z) :
  agree_where_kept (p1 :: r1) (p2 :: r2) (l :: label) ->
  agree_where_kept r1 r2 label.
Proof.
  intros (Hlen & H). split; [simpl in Hlen; congruence |].
  intros i q1 q2 l' H1 H2 H3. apply (H (S i)); assumption.
Qed.

Lemma kept_pairs_agree (r1 r2 label : list Z) :
  agree_where_kept r1 r2 label ->
  filter kept (combine r1 label) = filter kept (combine r2 label).
Proof.
  revert r2 label.
  induction r1 as [| p1 r1 IH]; intros [| p2 r2] label H;
    try (destruct H as (Hlen & _); simpl in Hlen; discriminate);
    [reflexivity |].
  destruct label as [| l label]; [reflexivity |]. simpl.
  rewrite (IH r2 label (agree_where_kept_tail _ _ _ _ _ _ H)).
  unfold kept at 1 3. simpl.
  destruct (Z.eq_dec l IGNORE) as [E | N].
  - subst l. reflexivity.
  - destruct H as (_ & H).
    rewrite (H 0%nat p1 p2 l eq_refl eq_refl eq_refl N). reflexivity.
Qed.

Lemma rows_agree (ids1 ids2 labels : list (list Z)) :
  batches_agree_where_kept ids1 ids2 labels ->
  map (fun pl => filter kept (combine (fst pl) (snd pl))) (combine ids1 labels)
  = map (fun pl => filter kept (combine (fst pl) (snd pl))) (combine ids2 labels).
Proof.
  revert ids2 labels.
  induction ids1 as [| r1 ids1 IH]; intros [| r2 ids2] labels (Hlen & H);
    simpl in Hlen; try discriminate; [reflexivity |].
  destruct labels as [| label labels]; [reflexivity |]. simpl. f_equal.
  - apply kept_pairs_agree. apply (H 0%nat); reflexivity.
  - apply IH. split; [congruence |].
    intros e q1 q2 label' H1 H2 H3. apply (H (S e)); assumption.
Qed.

Lemma mapM_map {A B C : Type} (g : A -> B) (f : B -> result C) (xs : list A) :
  mapM f (map g xs) = mapM (fun x => f (g x)) xs.
Proof.
  induction xs as [| x xs IH]; simpl; [reflexivity | now rewrite IH].
Qed.

Lemma argmax_scan_bound {score : Type} (leb : score -> score -> bool)
    (ip : list score) (mp : score) (max_ind i : nat) :
  (max_ind < i)%nat ->
  (argmax_scan leb mp max_ind i ip < i + List.length ip)%nat.
Proof.
  revert mp max_ind i.
  induction ip as [| x rest IH]; intros mp max_ind i H; simpl; [lia |].
  destruct (leb x mp).
  - specialize (IH mp max_ind (S i)). lia.
  - destruct (isnan leb x); [lia |]. specialize (IH x i (S i)). lia.
Qed.

Lemma argmax_in_range {score : Type} (leb : score -> score -> bool)
    (v : list score) (p : Z) :
  argmax leb v = inr p -> 0 <= p < Z.of_nat (List.length v).
Proof.
  destruct v as [| x rest]; [discriminate |]. simpl.
  destruct (isnan leb x); intros [= <-]; [lia |].
  pose proof (argmax_scan_bound leb rest x 0 1). simpl in H. lia.
Qed.

Lemma Forall2_In_r {A B : Type} (R : A -> B -> Prop) (xs : list A) (ys : list B) (y : B) :
  Forall2 R xs ys -> In y ys -> exists x, In x xs /\ R x y.
Proof.
  induction 1 as [| x0 y0 xs ys Hxy _ IH]; simpl; [contradiction |].
  intros [<- | Hin]; [eauto |]. destruct (IH Hin) as (x & Hx & Hr). eauto.
Qed.

Section PredictedIds.

Variable all_labels : list string.
Variable score : Type.
Variable leb : score -> score -> bool.

(** The scores at ignored positions have no bearing on the outcome: two
    tensors whose argmax ids are of the same shape and agree wherever the
    reference id is not -100 decode to the same sequences and get the
    same result from [compute_metrics], values and exceptions alike. *)
Theorem ignored_positions_do_not_matter
    (predictions1 predictions2 : list (list (list score)))
    (ids1 ids2 labels : list (list Z)) :
  np_argmax_axis2 leb predictions1 = inr ids1 ->
  np_argmax_axis2 leb predictions2 = inr ids2 ->
  batches_agree_where_kept ids1 ids2 labels ->
  decoded all_labels leb (predictions1, labels)
  = decoded all_labels leb (predictions2, labels)
  /\ compute_metrics all_labels leb (predictions1, labels)
     = compute_metrics all_labels leb (predictions2, labels).
Proof.
  intros H1 H2 Hagree.
  pose proof (rows_agree ids1 ids2 labels Hagree) as Hrows.
  assert (Htp : true_predictions all_labels ids1 labels
                = true_predictions all_labels ids2 labels).
  { unfold true_predictions, true_predictions_row.
    rewrite <- (mapM_map (fun pl => filter kept (combine (fst pl) (snd pl)))
                  (mapM (fun pl => getitem all_labels (fst pl)))
                  (combine ids1 labels)).
    rewrite <- (mapM_map (fun pl => filter kept (combine (fst pl) (snd pl)))
                  (mapM (fun pl => getitem all_labels (fst pl)))
                  (combine ids2 labels)).
    now rewrite Hrows. }
  assert (Htl : true_labels all_labels ids1 labels
                = true_labels all_labels ids2 labels).
  { unfold true_labels, true_labels_row.
    rewrite <- (mapM_map (fun pl => filter kept (combine (fst pl) (snd pl)))
                  (mapM (fun pl => getitem all_labels (snd pl)))
                  (combine ids1 labels)).
    rewrite <- (mapM_map (fun pl => filter kept (combine (fst pl) (snd pl)))
                  (mapM (fun pl => getitem all_labels (snd pl)))
                  (combine ids2 labels)).
    now rewrite Hrows. }
  unfold decoded, compute_metrics, decode. rewrite H1, H2. simpl.
  rewrite Htp, Htl. split; reflexivity.
Qed.

(** Whatever the order on the scores, the ids [np.argmax] returns have the
    shape of the first two axes of the tensor, and each id is an index
    into the score vector it was taken from: 0 <= id < num_labels. *)
Theorem argmax_ids_shape_and_range
    (predictions : list (list (list score))) (ids : list (list Z)) :
  np_argmax_axis2 leb predictions = inr ids ->
  Forall2 (Forall2 (fun v p => 0 <= p < Z.of_nat (List.length v))) predictions ids.
Proof.
  intro H. apply mapM_Forall2 in H.
  eapply Forall2_impl; [| exact H]. simpl. intros row prediction Hrow.
  apply mapM_Forall2 in Hrow.
  eapply Forall2_impl; [| exact Hrow]. simpl. intros v p. apply argmax_in_range.
Qed.

(** When every score vector has at least one and at most len(all_labels)
    entries, decoding the predicted ids never raises, whatever the
    labels; the decoding as a whole then succeeds exactly when every
    reference id at a kept, paired position is an index Python accepts
    for the vocabulary. *)
Theorem only_reference_ids_can_raise
    (predictions : list (list (list score))) (labels : list (list Z)) :
  (forall row v, In row predictions -> In v row ->
     v <> [] /\ (List.length v <= List.length all_labels)%nat) ->
  exists ids,
    np_argmax_axis2 leb predictions = inr ids
    /\ (exists tp, true_predictions all_labels ids labels = inr tp)
    /\ ((exists d, decoded all_labels leb (predictions, labels) = inr d) <->
        (forall prediction label p l,
           In (prediction, label) (combine ids labels) ->
           In (p, l) (combine prediction label) -> l <> IGNORE ->
           valid_index (List.length all_labels) l)).
Proof.
  intro Hsize.
  destruct (mapM_total (mapM (argmax leb)) predictions) as (ids & Hids).
  { intros row Hrow. apply mapM_total. intros v Hv.
    destruct v as [| x rest]; [destruct (Hsize _ _ Hrow Hv); congruence |].
    simpl. destruct (isnan leb x); eexists; reflexivity. }
  assert (Hrange : forall prediction p, In prediction ids -> In p prediction ->
                     valid_index (List.length all_labels) p).
  { intros prediction p Hrow Hp.
    apply mapM_Forall2 in Hids.
    destruct (Forall2_In_r _ _ _ _ Hids Hrow) as (row & Hin & Hr).
    apply mapM_Forall2 in Hr.
    destruct (Forall2_In_r _ _ _ _ Hr Hp) as (v & Hv & Ha).
    apply argmax_in_range in Ha. destruct (Hsize _ _ Hin Hv) as (_ & Hle).
    unfold valid_index. lia. }
  assert (Hpred : forall prediction label p l,
            In (prediction, label) (combine ids labels) ->
            In (p, l) (combine prediction label) ->
            valid_index (List.length all_labels) p).
  { intros prediction label p l Hrow Hpos.
    apply (Hrange prediction p);
      [eapply in_combine_l; eassumption | eapply in_combine_l; eassumption]. }
  exists ids. split; [exact Hids | split].
  - apply mapM_total. intros [prediction label] Hrow. simpl.
    apply mapM_total. intros [p l] Hpos. simpl.
    apply filter_In in Hpos as (Hpos & _).
    apply getitem_valid. eapply Hpred; eassumption.
  - unfold decoded. unfold np_argmax_axis2 in *. rewrite Hids. simpl.
    pose proof (decode_succeeds_iff_ids_valid_aux all_labels ids labels) as Hiff.
    split.
    + intros ([tp tl] & Hd) prediction label p l Hrow Hpos Hk.
      apply (proj1 Hiff (ex_intro _ tp (ex_intro _ tl Hd)) prediction label p l);
        assumption.
    + intro Hl. destruct (proj2 Hiff) as (tp & tl & Hd); [| eauto].
      intros prediction label p l Hrow Hpos Hk. split.
      * eapply Hpred; eassumption.
      * eapply Hl; eassumption.
Qed.

End PredictedIds.

(** ** Batches laid end to end *)

Section Concatenation.

Variable all_labels : list string.

(** Examples are decoded independently of one another: a batch made of two
    batches laid end to end (the first with as many prediction rows as
    label rows) decodes exactly when both parts do, to the decoded
    sequences of the first part followed by those of the second. *)
Theorem batch_concatenation (ids1 ids2 labels1 labels2 : list (list Z)) :
  List.length ids1 = List.length labels1 ->
  forall tp tl,
    decode all_labels (ids1 ++ ids2) (labels1 ++ labels2) = inr (tp, tl) <->
    exists tp1 tl1 tp2 tl2,
      decode all_labels ids1 labels1 = inr (tp1, tl1)
      /\ decode all_labels ids2 labels2 = inr (tp2, tl2)
      /\ tp = tp1 ++ tp2 /\ tl = tl1 ++ tl2.
Proof.
  intros Hlen tp tl.
  assert (Ep : true_predictions all_labels (ids1 ++ ids2) (labels1 ++ labels2)
               = (a <- true_predictions all_labels ids1 labels1 ;;
                  b <- true_predictions all_labels ids2 labels2 ;; ret (a ++ b))).
  { unfold true_predictions. rewrite (zip_app _ _ _ _ Hlen). apply mapM_app. }
  assert (El : true_labels all_labels (ids1 ++ ids2) (labels1 ++ labels2)
               = (a <- true_labels all_labels ids1 labels1 ;;
                  b <- true_labels all_labels ids2 labels2 ;; ret (a ++ b))).
  { unfold true_labels. rewrite (zip_app _ _ _ _ Hlen). apply mapM_app. }
  rewrite decode_inr, Ep, El. split.
  - intros (Hp & Hl).
    apply bind_inr in Hp as (tp1 & Hp1 & Hp). apply bind_inr in Hp as (tp2 & Hp2 & Hp).
    apply bind_inr in Hl as (tl1 & Hl1 & Hl). apply bind_inr in Hl as (tl2 & Hl2 & Hl).
    injection Hp as <-. injection Hl as <-.
    exists tp1, tl1, tp2, tl2. rewrite !decode_inr. auto.
  - intros (tp1 & tl1 & tp2 & tl2 & H1 & H2 & -> & ->).
    apply decode_inr in H1 as (-> & ->). apply decode_inr in H2 as (-> & ->).
    split; reflexivity.
Qed.

End Concatenation.

(** * Further properties of get_trainer *)

Section TrainerFurther.

Variable column : Type.

Lemma remove_columns_inr_iff (d : Dataset column) (names : list string) :
  (exists d', remove_columns d names = inr d') <->
  (forall c, In c names -> In c (column_names d)).
Proof.
  split.
  - intros (d' & H) c Hc. unfold remove_columns in H.
    destruct (forallb _ names) eqn:F; [| discriminate].
    rewrite forallb_forall in F. apply (mem_spec c). now apply F.
  - apply remove_columns_total.
Qed.

Lemma remove_columns_only_ValueError (d : Dataset column) (names : list string)
    (e : exn) :
  remove_columns d names = inl e -> e = ValueError.
Proof.
  unfold remove_columns. destruct (forallb _ names); [discriminate |].
  now intros [= <-].
Qed.

Lemma remove_columns_inr (d d' : Dataset column) (names : list string) :
  remove_columns d names = inr d' ->
  d' = filter (fun kv => negb (mem (fst kv) names)) d.
Proof.
  unfold remove_columns. destruct (forallb _ names); [| discriminate].
  now intros [= <-].
Qed.

Lemma mem_columns_to_remove (train : Dataset column) (c : string) :
  mem c (columns_to_remove train)
  = mem c (column_names train) && negb (keep_column c).
Proof.
  apply eq_true_iff_eq.
  rewrite andb_true_iff, negb_true_iff, !mem_spec, columns_to_remove_spec.
  unfold keep_column. split.
  - intros (Hin & N1 & N2). split; [assumption |].
    destruct (mem c ["input_ids"; "labels"]) eqn:M; [| reflexivity].
    apply mem_spec in M. simpl in M. intuition congruence.
  - intros (Hin & M). split; [assumption |].
    split; intro E; subst c; simpl in M; discriminate.
Qed.

Lemma train_removal_total (train : Dataset column) :
  exists d', remove_columns train (columns_to_remove train) = inr d'.
Proof.
  apply remove_columns_total. intros c Hc. now apply columns_to_remove_spec in Hc.
Qed.

(** [get_trainer] raises nothing but the [ValueError] of
    [remove_columns], and it returns exactly when every column of the
    train dataset other than input_ids and labels is a column of the
    validation dataset too; the train dataset itself never makes it
    fail. *)
Theorem get_trainer_succeeds_iff (train val : Dataset column) :
  ((exists t, get_trainer train val = inr t) <->
   (forall c, In c (column_names train) -> keep_column c = false ->
      In c (column_names val)))
  /\ forall e, get_trainer train val = inl e -> e = ValueError.
Proof.
  unfold get_trainer.
  destruct (train_removal_total train) as (t' & Ht). rewrite Ht. simpl.
  split; [split |].
  - intros (t & H) c Hc Hk.
    destruct (remove_columns val (columns_to_remove train)) as [e | v'] eqn:Hv;
      [discriminate |].
    apply (proj1 (remove_columns_inr_iff val (columns_to_remove train))
             (ex_intro _ v' Hv)).
    apply mem_spec. rewrite mem_columns_to_remove, Hk.
    apply mem_spec in Hc. now rewrite Hc.
  - intro H.
    destruct (proj2 (remove_columns_inr_iff val (columns_to_remove train)))
      as (v' & Hv).
    { intros c Hc. apply mem_spec in Hc. rewrite mem_columns_to_remove in Hc.
      apply andb_true_iff in Hc as (Hin & Hk). apply negb_true_iff in Hk.
      apply H; [now apply mem_spec | assumption]. }
    rewrite Hv. eexists; reflexivity.
  - intros e H.
    destruct (remove_columns val (columns_to_remove train)) as [e' | v'] eqn:Hv;
      [| discriminate].
    injection H as <-. eapply remove_columns_only_ValueError; eassumption.
Qed.

(** What the trainer is given, in closed form.  The train dataset keeps
    its input_ids and labels columns and nothing else; the validation
    dataset keeps its input_ids and labels columns and every column the
    train dataset does not have.  The columns kept are untouched: same
    contents, same order. *)
Theorem get_trainer_datasets_closed_form (train val : Dataset column)
    (t : Trainer column) :
  get_trainer train val = inr t ->
  train_dataset t = filter (fun kv => keep_column (fst kv)) train
  /\ eval_dataset t
     = filter (fun kv => keep_column (fst kv)
                         || negb (mem (fst kv) (column_names train))) val.
Proof.
  unfold get_trainer. intro H.
  apply bind_inr in H as (t' & Ht & H). apply bind_inr in H as (v' & Hv & H).
  injection H as <-. simpl.
  apply remove_columns_inr in Ht, Hv. subst t' v'. split.
  - apply filter_ext_in. intros [k v] Hin. simpl.
    rewrite mem_columns_to_remove.
    assert (M : mem k (column_names train) = true).
    { apply mem_spec. unfold column_names. apply in_map_iff. exists (k, v). auto. }
    rewrite M. simpl. apply negb_involutive.
  - apply filter_ext. intros [k v]. simpl. rewrite mem_columns_to_remove.
    destruct (mem k (column_names train)), (keep_column k); reflexivity.
Qed.

(** Filtering twice changes nothing: [get_trainer] applied to the datasets
    it hands to the trainer returns the same two datasets. *)
Theorem get_trainer_idempotent (train val : Dataset column) (t : Trainer column) :
  get_trainer train val = inr t ->
  get_trainer (train_dataset t) (eval_dataset t) = inr t.
Proof.
  intro H.
  assert (Hclean : columns_to_remove (train_dataset t) = []).
  { unfold get_trainer in H.
    apply bind_inr in H as (t' & Ht & H). apply bind_inr in H as (v' & Hv & H).
    injection H as <-. simpl.
    destruct (columns_to_remove t') as [| c cs] eqn:E; [reflexivity | exfalso].
    assert (Hc : In c (columns_to_remove t')) by (rewrite E; now left).
    apply columns_to_remove_spec in Hc as (Hin & N1 & N2).
    apply (remove_columns_names _ _ _ _ Ht) in Hin as (Hin & Hn).
    apply Hn. apply columns_to_remove_spec. auto. }
  unfold get_trainer. rewrite Hclean. unfold remove_columns. simpl.
  rewrite !filter_all by reflexivity. destruct t. reflexivity.
Qed.

End TrainerFurther.

(** ** The paths *)

Lemma string_length_append (a b : string) :
  String.length (a ++ b)%string = (String.length a + String.length b)%nat.
Proof.
  induction a as [| c a IH]; simpl; [reflexivity | now rewrite IH].
Qed.

Lemma string_append_assoc (a b c : string) :
  ((a ++ b) ++ c)%string = (a ++ (b ++ c))%string.
Proof.
  induction a as [| x a IH]; simpl; [reflexivity | now rewrite IH].
Qed.

(** Two strings that end in suffixes of the same length end in the same
    suffix, and start alike. *)
Lemma string_append_inj (s1 s2 a b : string) :
  String.length a = String.length b ->
  (s1 ++ a)%string = (s2 ++ b)%string -> s1 = s2 /\ a = b.
Proof.
  intro Hlen. revert s2.
  induction s1 as [| c s1 IH]; intros [| c' s2] H; simpl in H.
  - auto.
  - exfalso. apply (f_equal String.length) in H. simpl in H.
    rewrite string_length_append in H. lia.
  - exfalso. apply (f_equal String.length) in H. simpl in H.
    rewrite string_length_append in H. lia.
  - injection H as -> H. destruct (IH s2 H) as (-> & ->). auto.
Qed.

(** The validation file is never the training file: whatever the two
    dataset prefixes, the path of a training file differs from the path of
    a validation file. *)
Theorem train_file_is_not_val_file (prefix1 prefix2 : string) :
  train_file prefix1 <> val_file prefix2.
Proof.
  unfold train_file, val_file. intro H. simpl in H. injection H as H.
  change "_train_adv.json" with ("_t" ++ "rain_adv.json")%string in H.
  rewrite <- string_append_assoc in H.
  apply string_append_inj in H as (_ & H); [discriminate | reflexivity].
Qed.

(** Runs do not share an output directory unless they share a name, and
    the output directory of a run is never the directory its model is
    resumed from. *)
Theorem output_dir_injective (run_name1 run_name2 : string) :
  (output_dir run_name1 = output_dir run_name2 -> run_name1 = run_name2)
  /\ output_dir run_name1 <> model_dir run_name1.
Proof.
  unfold output_dir, model_dir. split.
  - intro H. apply string_append_inj in H as (H & _); [assumption | reflexivity].
  - intro E. apply (f_equal String.length) in E.
    rewrite !string_length_append in E. simpl in E. lia.
Qed.

(** ** Concrete runs of the further properties *)

Lemma decoded_rows_closed_form_run :
  ["O"; "B-PER"]
  = map (tag_of sample_vocabulary)
      (map fst (filter kept (combine [0; 1; 1] [-1; -100; 1])))
  /\ ["B-PER"; "B-PER"]
     = map (tag_of sample_vocabulary)
         (filter not_ignored
            (firstn (Nat.min (List.length [0; 1; 1]) (List.length [-1; -100; 1]))
               [-1; -100; 1])).
Proof.
  apply (decoded_rows_closed_form sample_vocabulary [0; 1; 1] [-1; -100; 1]
           ["O"; "B-PER"] ["B-PER"; "B-PER"]); reflexivity.
Defined.

Lemma decoded_tags_in_vocabulary_run :
  Forall (Forall (fun t => In t sample_vocabulary)) [["O"; "B-PER"]]
  /\ Forall (Forall (fun t => In t sample_vocabulary)) [["O"; "B-PER"]].
Proof.
  apply (decoded_tags_in_vocabulary sample_vocabulary [[0; 2; 1]] sample_labels
           [["O"; "B-PER"]] [["O"; "B-PER"]]).
  reflexivity.
Defined.

Lemma ignored_positions_do_not_matter_run :
  decoded sample_vocabulary Z.leb (sample_predictions, sample_labels)
  = decoded sample_vocabulary Z.leb
      ([[[1; 0; 0]; [1; 0; 0]; [0; 1; 0]]], sample_labels)
  /\ compute_metrics sample_vocabulary Z.leb (sample_predictions, sample_labels)
     = compute_metrics sample_vocabulary Z.leb
         ([[[1; 0; 0]; [1; 0; 0]; [0; 1; 0]]], sample_labels).
Proof.
  apply (ignored_positions_do_not_matter sample_vocabulary Z Z.leb
           sample_predictions [[[1; 0; 0]; [1; 0; 0]; [0; 1; 0]]]
           [[0; 2; 1]] [[0; 0; 1]] sample_labels);
    try reflexivity.
  split; [reflexivity |].
  intros [| e] r1 r2 label H1 H2 H3; simpl in H1, H2, H3;
    [| destruct e; discriminate].
  injection H1 as <-. injection H2 as <-. injection H3 as <-.
  split; [reflexivity |].
  intros [| [| [| i]]] p1 p2 l Hp1 Hp2 Hl Hk; simpl in Hp1, Hp2, Hl.
  - congruence.
  - injection Hl as <-. exfalso. apply Hk. reflexivity.
  - congruence.
  - destruct i; discriminate.
Defined.

Lemma argmax_ids_shape_and_range_run :
  Forall2 (Forall2 (fun (v : list Z) p => 0 <= p < Z.of_nat (List.length v)))
    sample_predictions [[0; 2; 1]].
Proof.
  apply (argmax_ids_shape_and_range Z Z.leb sample_predictions [[0; 2; 1]]).
  reflexivity.
Defined.

Lemma only_reference_ids_can_raise_run :
  exists ids,
    np_argmax_axis2 Z.leb sample_predictions = inr ids
    /\ (exists tp, true_predictions ["O"; "B-PER"; "I-PER"] ids sample_labels = inr tp)
    /\ ((exists d, decoded ["O"; "B-PER"; "I-PER"] Z.leb
                     (sample_predictions, sample_labels) = inr d) <->
        (forall prediction label p l,
           In (prediction, label) (combine ids sample_labels) ->
           In (p, l) (combine prediction label) -> l <> IGNORE ->
           valid_index (List.length ["O"; "B-PER"; "I-PER"]) l)).
Proof.
  apply (only_reference_ids_can_raise ["O"; "B-PER"; "I-PER"] Z Z.leb
           sample_predictions sample_labels).
  intros row v Hrow Hv. unfold sample_predictions in Hrow.
  destruct Hrow as [<- | []].
  destruct Hv as [<- | [<- | [<- | []]]]; (split; [discriminate | simpl; lia]).
Defined.

Lemma batch_concatenation_run :
  decode sample_vocabulary ([[0]] ++ [[1]]) ([[0]] ++ [[1]])
  = inr ([["O"]; ["B-PER"]], [["O"]; ["B-PER"]]) <->
  exists tp1 tl1 tp2 tl2,
    decode sample_vocabulary [[0]] [[0]] = inr (tp1, tl1)
    /\ decode sample_vocabulary [[1]] [[1]] = inr (tp2, tl2)
    /\ [["O"]; ["B-PER"]] = tp1 ++ tp2 /\ [["O"]; ["B-PER"]] = tl1 ++ tl2.
Proof.
  exact (batch_concatenation sample_vocabulary [[0]] [[1]] [[0]] [[1]] eq_refl
           [["O"]; ["B-PER"]] [["O"]; ["B-PER"]]).
Defined.

Lemma get_trainer_datasets_closed_form_run :
  [("input_ids", tt); ("labels", tt)]
  = filter (fun kv => keep_column (fst kv)) sample_train
  /\ [("input_ids", tt); ("labels", tt); ("extra", tt)]
     = filter (fun kv => keep_column (fst kv)
                         || negb (mem (fst kv) (column_names sample_train)))
         sample_val.
Proof.
  exact (get_trainer_datasets_closed_form unit sample_train sample_val
           {| train_dataset := [("input_ids", tt); ("labels", tt)];
              eval_dataset := [("input_ids", tt); ("labels", tt); ("extra", tt)] |}
           eq_refl).
Defined.

Lemma get_trainer_idempotent_run :
  get_trainer [("input_ids", tt); ("labels", tt)]
              [("input_ids", tt); ("labels", tt); ("extra", tt)]
  = inr {| train_dataset := [("input_ids", tt); ("labels", tt)];
           eval_dataset := [("input_ids", tt); ("labels", tt); ("extra", tt)] |}.
Proof.
  exact (get_trainer_idempotent unit sample_train sample_val
           {| train_dataset := [("input_ids", tt); ("labels", tt)];
              eval_dataset := [("input_ids", tt); ("labels", tt); ("extra", tt)] |}
           eq_refl).
Defined.

(** * compute_metrics as a whole *)

(** ** When the evaluator returns *)

Lemma chunk_scan_total (seq : list string) :
  Forall (fun s => s <> "") seq ->
  forall i prev_tag prev_type begin_offset chunks,
    exists es,
      Seqeval.chunk_scan seq i prev_tag prev_type begin_offset chunks = inr es.
Proof.
  induction 1 as [| s seq Hs _ IH]; intros i prev_tag prev_type begin_offset chunks.
  - eexists; reflexivity.
  - destruct s as [| tag rest]; [congruence |]. simpl. apply IH.
Qed.

Lemma get_entities_total (seqs : list (list string)) :
  Forall (Forall (fun s => s <> "")) seqs ->
  exists es, Seqeval.get_entities seqs = inr es.
Proof.
  intro H. unfold Seqeval.get_entities. apply chunk_scan_total.
  apply Forall_app. split; [| repeat constructor; discriminate].
  apply Forall_flat_map. eapply Forall_impl; [| exact H]. simpl.
  intros s Hs. apply Forall_app. split; [exact Hs | repeat constructor; discriminate].
Qed.

Lemma Forall2_map_length {A B : Type} (xs : list (list A)) (ys : list (list B)) :
  Forall2 (fun a b => List.length a = List.length b) xs ys ->
  map (@List.length A) xs = map (@List.length B) ys.
Proof.
  induction 1; simpl; congruence.
Qed.

Lemma concat_not_nil {A : Type} (xss : list (list A)) (xs : list A) :
  In xs xss -> xs <> [] -> List.concat xss <> [].
Proof.
  intros Hin Hne E. destruct xs as [| x xs]; [congruence |].
  assert (Hx : In x (List.concat xss)) by (apply in_concat; exists (x :: xs); simpl; auto).
  rewrite E in Hx. contradiction.
Qed.

(** The evaluator returns on two batches of the same shape whose tags are
    non-empty strings and which hold at least one tag. *)
Lemma seqeval_compute_total (tp tl : list (list string)) :
  Forall2 (fun dp dl => List.length dp = List.length dl) tp tl ->
  Forall (Forall (fun s => s <> "")) tp ->
  Forall (Forall (fun s => s <> "")) tl ->
  List.concat tl <> [] ->
  exists r, Seqeval.compute tp tl = inr r.
Proof.
  intros Hshape Htp Htl Hne. unfold Seqeval.compute.
  assert (Hc : Seqeval.check_consistent_length tl tp = inr tt).
  { unfold Seqeval.check_consistent_length.
    destruct tl as [| dl tl]; [simpl in Hne; congruence |].
    destruct (list_eq_dec _ _ _) as [_ | N]; [reflexivity |].
    exfalso. apply N. symmetry. now apply Forall2_map_length. }
  rewrite Hc. simpl.
  unfold Seqeval.precision_recall_fscore.
  destruct (get_entities_total tl Htl) as (et & Het).
  destruct (get_entities_total tp Htp) as (ep & Hep).
  rewrite Het, Hep. simpl.
  unfold Seqeval.accuracy_score.
  destruct (List.length (List.concat tl)) as [| k] eqn:E.
  - apply length_zero_iff_nil in E. contradiction.
  - simpl. eexists; reflexivity.
Qed.

Lemma combine_map_same {A B C : Type} (f : A -> B) (g : A -> C) (xs : list A) :
  combine (map f xs) (map g xs) = map (fun x => (f x, g x)) xs.
Proof.
  induction xs as [| x xs IH]; simpl; [reflexivity | now rewrite IH].
Qed.

Section WholeFunction.

Variable all_labels : list string.
Variable score : Type.
Variable leb : score -> score -> bool.

Lemma decode_equal_lengths (ids labels : list (list Z)) (tp tl : list (list string)) :
  decode all_labels ids labels = inr (tp, tl) ->
  Forall2 (fun dp dl => List.length dp = List.length dl) tp tl.
Proof.
  intro H. apply decode_inr in H as (Htp & Htl). apply mapM_Forall2 in Htp, Htl.
  eapply Forall2_common_left; [| exact Htp | exact Htl].
  simpl. intros [prediction label] dp dl Hp Hl. simpl in *.
  apply mapM_length in Hp, Hl. congruence.
Qed.

Lemma decode_tags_not_empty (ids labels : list (list Z)) (tp tl : list (list string)) :
  ~ In "" all_labels ->
  decode all_labels ids labels = inr (tp, tl) ->
  Forall (Forall (fun s => s <> "")) tp /\ Forall (Forall (fun s => s <> "")) tl.
Proof.
  intros Hne H. apply decode_inr in H as (Htp & Htl).
  assert (Htag : forall i t, getitem all_labels i = inr t -> t <> "").
  { intros i t Ht E. subst t. apply Hne. eapply getitem_In; eassumption. }
  split.
  - revert Htp. apply mapM_Forall. intros [prediction label] dp _. simpl.
    apply mapM_Forall. intros pl t _. apply Htag.
  - revert Htl. apply mapM_Forall. intros [prediction label] dl _. simpl.
    apply mapM_Forall. intros pl t _. apply Htag.
Qed.

Lemma decode_some_tag (ids labels : list (list Z)) (tp tl : list (list string)) :
  some_position_kept ids labels ->
  decode all_labels ids labels = inr (tp, tl) ->
  List.concat tl <> [].
Proof.
  intros (prediction & label & p & l & Hrow & Hpos & Hk) H.
  apply decode_inr in H as (_ & Htl).
  destruct (mapM_inr_In _ _ _ Htl _ Hrow) as (dl & Hdl & Hl). simpl in Hl.
  apply (concat_not_nil tl dl Hdl).
  apply mapM_length in Hl. intro E. subst dl. simpl in Hl.
  assert (Hf : In (p, l) (filter kept (combine prediction label))).
  { apply filter_In. split; [assumption | now apply kept_spec]. }
  symmetry in Hl. apply length_zero_iff_nil in Hl. rewrite Hl in Hf. contradiction.
Qed.

(** Past the decoding, [compute_metrics] is the evaluator call. *)
Lemma compute_metrics_after_decoding
    (predictions : list (list (list score))) (labels : list (list Z))
    (tp tl : list (list string)) :
  decoded all_labels leb (predictions, labels) = inr (tp, tl) ->
  compute_metrics all_labels leb (predictions, labels)
  = (results <- Seqeval.compute tp tl ;;
     ret {| precision := Seqeval.overall_precision results;
            recall := Seqeval.overall_recall results;
            f1 := Seqeval.overall_f1 results;
            accuracy := Seqeval.overall_accuracy results |}).
Proof.
  intro H. rewrite compute_metrics_decoded, H. reflexivity.
Qed.

(** [compute_metrics] returns when the ids at the surviving positions index
    the vocabulary, some position survives and no tag is the empty
    string. *)
Lemma compute_metrics_returns
    (predictions : list (list (list score))) (labels ids : list (list Z)) :
  np_argmax_axis2 leb predictions = inr ids ->
  kept_ids_valid (List.length all_labels) ids labels ->
  some_position_kept ids labels ->
  ~ In "" all_labels ->
  exists m, compute_metrics all_labels leb (predictions, labels) = inr m.
Proof.
  intros Hids Hvalid Hkept Hne.
  destruct (proj2 (decode_succeeds_iff_ids_valid_aux all_labels ids labels) Hvalid)
    as (tp & tl & Hdec).
  assert (Hd : decoded all_labels leb (predictions, labels) = inr (tp, tl)).
  { unfold decoded. rewrite Hids. exact Hdec. }
  rewrite (compute_metrics_after_decoding _ _ _ _ Hd).
  destruct (decode_tags_not_empty _ _ _ _ Hne Hdec) as (Htp & Htl).
  destruct (seqeval_compute_total tp tl (decode_equal_lengths _ _ _ _ Hdec) Htp Htl
              (decode_some_tag _ _ _ _ Hkept Hdec)) as (r & Hr).
  rewrite Hr. simpl. eexists; reflexivity.
Qed.

Lemma decode_cut (ids labels : list (list Z)) :
  decode all_labels ids labels
  = decode all_labels (cut_predictions ids labels) (cut_labels ids labels).
Proof.
  unfold decode, true_predictions, true_labels, cut_predictions, cut_labels.
  rewrite combine_map_same, !mapM_map. simpl.
  rewrite (mapM_ext_in
             (fun pl => true_predictions_row all_labels (fst pl) (snd pl))
             (fun x => true_predictions_row all_labels
                (firstn (Nat.min (List.length (fst x)) (List.length (snd x))) (fst x))
                (firstn (Nat.min (List.length (fst x)) (List.length (snd x))) (snd x)))).
  2:{ intros [prediction label] _. simpl. unfold true_predictions_row.
      pose proof (combine_truncate prediction label) as Hc. simpl in Hc.
      now rewrite Hc. }
  rewrite (mapM_ext_in
             (fun pl => true_labels_row all_labels (fst pl) (snd pl))
             (fun x => true_labels_row all_labels
                (firstn (Nat.min (List.length (fst x)) (List.length (snd x))) (fst x))
                (firstn (Nat.min (List.length (fst x)) (List.length (snd x))) (snd x)))).
  2:{ intros [prediction label] _. simpl. unfold true_labels_row.
      pose proof (combine_truncate prediction label) as Hc. simpl in Hc.
      now rewrite Hc. }
  reflexivity.
Qed.

(** C4, as the code has it: an example whose reference ids are all -100
    raises nothing in the decoding, whatever its predicted ids, and in a
    batch whose other ids at kept positions index the vocabulary it
    contributes the empty sequence to both decoded lists;
    [compute_metrics] then returns provided some position of the batch is
    kept and no tag of the vocabulary is the empty string. *)
Theorem all_ignored_example_in_batch
    (predictions : list (list (list score))) (labels ids : list (list Z))
    (e : nat) (prediction label : list Z) :
  np_argmax_axis2 leb predictions = inr ids ->
  nth_error ids e = Some prediction ->
  nth_error labels e = Some label ->
  Forall (fun l => l = IGNORE) label ->
  kept_ids_valid (List.length all_labels) ids labels ->
  (true_predictions_row all_labels prediction label = inr []
   /\ true_labels_row all_labels prediction label = inr [])
  /\ (exists tp tl,
        decoded all_labels leb (predictions, labels) = inr (tp, tl)
        /\ nth_error tp e = Some [] /\ nth_error tl e = Some []
        /\ compute_metrics all_labels leb (predictions, labels)
           = (results <- Seqeval.compute tp tl ;;
              ret {| precision := Seqeval.overall_precision results;
                     recall := Seqeval.overall_recall results;
                     f1 := Seqeval.overall_f1 results;
                     accuracy := Seqeval.overall_accuracy results |}))
  /\ (some_position_kept ids labels -> ~ In "" all_labels ->
      exists m, compute_metrics all_labels leb (predictions, labels) = inr m).
Proof.
  intros Hids He He' Hall Hvalid.
  assert (Hrow : true_predictions_row all_labels prediction label = inr []
                 /\ true_labels_row all_labels prediction label = inr []).
  { unfold true_predictions_row, true_labels_row.
    rewrite (filter_kept_all_ignored _ _ Hall). split; reflexivity. }
  split; [exact Hrow | split].
  - destruct (proj2 (decode_succeeds_iff_ids_valid_aux all_labels ids labels) Hvalid)
      as (tp & tl & Hdec).
    assert (Hd : decoded all_labels leb (predictions, labels) = inr (tp, tl)).
    { unfold decoded. rewrite Hids. exact Hdec. }
    exists tp, tl. split; [exact Hd |].
    destruct (decode_rows _ _ _ _ _ Hdec _ _ _ He He') as (dp & dl & H1 & H2 & H3 & H4).
    destruct Hrow as (R1 & R2).
    assert (dp = []) by congruence. assert (dl = []) by congruence. subst dp dl.
    repeat split; try assumption.
    now apply compute_metrics_after_decoding.
  - intros Hkept Hne. eapply compute_metrics_returns; eassumption.
Qed.

(** C10, as the code has it: where the prediction row and the label row of
    an example differ in length, in a batch whose ids at kept, paired
    positions index the vocabulary, [compute_metrics] does not fail in
    the decoding.  The batch decodes as the batch whose rows are each cut
    to the shorter of the pair, so the surplus of the longer row is never
    looked at; the two decoded sequences of the example have as many tags
    as there are non-sentinel reference ids among its paired positions;
    and the decoded lists are what the evaluator is called on.
    [compute_metrics] then returns provided some position of the batch is
    kept and no tag of the vocabulary is the empty string. *)
Theorem unequal_rows_are_cut_to_the_shorter
    (predictions : list (list (list score))) (labels ids : list (list Z))
    (e : nat) (prediction label : list Z) :
  np_argmax_axis2 leb predictions = inr ids ->
  nth_error ids e = Some prediction ->
  nth_error labels e = Some label ->
  List.length prediction <> List.length label ->
  kept_ids_valid (List.length all_labels) ids labels ->
  decode all_labels ids labels
  = decode all_labels (cut_predictions ids labels) (cut_labels ids labels)
  /\ (exists tp tl dp dl,
        decoded all_labels leb (predictions, labels) = inr (tp, tl)
        /\ nth_error tp e = Some dp /\ nth_error tl e = Some dl
        /\ List.length dp
           = List.length
               (filter not_ignored
                  (firstn (Nat.min (List.length prediction) (List.length label)) label))
        /\ List.length dl
           = List.length
               (filter not_ignored
                  (firstn (Nat.min (List.length prediction) (List.length label)) label))
        /\ compute_metrics all_labels leb (predictions, labels)
           = (results <- Seqeval.compute tp tl ;;
              ret {| precision := Seqeval.overall_precision results;
                     recall := Seqeval.overall_recall results;
                     f1 := Seqeval.overall_f1 results;
                     accuracy := Seqeval.overall_accuracy results |}))
  /\ (some_position_kept ids labels -> ~ In "" all_labels ->
      exists m, compute_metrics all_labels leb (predictions, labels) = inr m).
Proof.
  intros Hids He He' _ Hvalid.
  split; [apply decode_cut | split].
  - destruct (proj2 (decode_succeeds_iff_ids_valid_aux all_labels ids labels) Hvalid)
      as (tp & tl & Hdec).
    assert (Hd : decoded all_labels leb (predictions, labels) = inr (tp, tl)).
    { unfold decoded. rewrite Hids. exact Hdec. }
    destruct (decode_rows _ _ _ _ _ Hdec _ _ _ He He') as (dp & dl & H1 & H2 & H3 & H4).
    exists tp, tl, dp, dl. repeat split; try assumption.
    + now apply row_length_pred in H3.
    + now apply row_length_label in H4.
    + now apply compute_metrics_after_decoding.
  - intros Hkept Hne. eapply compute_metrics_returns; eassumption.
Qed.

(** With NaN among the scores, [np.argmax] returns the position of the
    first NaN: a score that is [<=] nothing, itself included, preceded by
    scores that are [<=] themselves. *)
Theorem argmax_first_nan (pre post : list score) (x : score) :
  (forall y, leb x y = false) ->
  Forall (fun y => leb y y = true) pre ->
  argmax leb (pre ++ x :: post) = inr (Z.of_nat (List.length pre)).
Proof.
  intros Hnan Hpre.
  assert (Hx : isnan leb x = true) by (unfold isnan; now rewrite Hnan).
  assert (Hscan : forall pre' mp max_ind i,
            Forall (fun y => leb y y = true) pre' ->
            argmax_scan leb mp max_ind i (pre' ++ x :: post)
            = (i + List.length pre')%nat).
  { induction pre' as [| y pre' IH]; intros mp max_ind i Hall; simpl.
    - rewrite Hnan, Hx. lia.
    - inversion Hall as [| ? ? Hy Hall']; subst.
      assert (Hyn : isnan leb y = false) by (unfold isnan; now rewrite Hy).
      destruct (leb y mp); [| rewrite Hyn]; rewrite IH by assumption; lia. }
  destruct pre as [| y pre]; simpl.
  - rewrite Hx. reflexivity.
  - inversion Hpre as [| ? ? Hy Hall]; subst.
    assert (Hyn : isnan leb y = false) by (unfold isnan; now rewrite Hy).
    rewrite Hyn, Hscan by assumption. unfold ret. f_equal.
Qed.

End WholeFunction.

(** ** Calls in sequence *)

Section CallsInSequence.

Variable score : Type.
Variable leb : score -> score -> bool.

Lemma evaluation_rounds_spec
    (ps : list (list (list (list score)) * list (list Z))) (g : module_state) :
  evaluation_rounds leb ps g
  = (map (fun p => fst (call_compute_metrics leb p g)) ps, g).
Proof.
  induction ps as [| p ps IH]; simpl; [reflexivity |]. now rewrite IH.
Qed.


End CallsInSequence.

(** ** Concrete runs of the whole function *)

(** C4 as stated fails on a batch in which no position at all is kept:
    the decoded sequences are empty and the evaluator divides by the
    number of tags. *)
Lemma all_ignored_batch_divides_by_zero :
  Forall (fun l => l = IGNORE) [-100; -100]
  /\ decoded sample_vocabulary Z.leb ([[[0; 1]; [0; 1]]], [[-100; -100]])
     = inr ([[]], [[]])
  /\ compute_metrics sample_vocabulary Z.leb ([[[0; 1]; [0; 1]]], [[-100; -100]])
     = inl ZeroDivisionError.
Proof.
  repeat split; try reflexivity. repeat constructor.
Qed.

(** C10 as stated fails: with rows of different lengths [compute_metrics]
    raises [IndexError] when a paired reference id lies outside the
    vocabulary, and [ZeroDivisionError] when no paired position is kept. *)
Lemma unequal_rows_can_fail :
  np_argmax_axis2 Z.leb [[[1; 0]; [0; 1]]] = inr [[0; 1]]
  /\ List.length [0; 1] <> List.length [5]
  /\ compute_metrics sample_vocabulary Z.leb ([[[1; 0]; [0; 1]]], [[5]])
     = inl IndexError
  /\ compute_metrics sample_vocabulary Z.leb ([[[1; 0]; [0; 1]]], [[-100]])
     = inl ZeroDivisionError.
Proof.
  repeat split; try reflexivity. simpl. lia.
Qed.

Lemma all_ignored_example_in_batch_run :
  Forall (fun l => l = IGNORE) [-100; -100]
  /\ (exists tp tl,
        decoded sample_vocabulary Z.leb
          ([[[0; 0; 1]; [0; 0; 1]]; [[1; 0; 0]; [0; 1; 0]]], [[-100; -100]; [0; 1]])
        = inr (tp, tl)
        /\ nth_error tp 0 = Some [] /\ nth_error tl 0 = Some [])
  /\ exists m,
       compute_metrics sample_vocabulary Z.leb
         ([[[0; 0; 1]; [0; 0; 1]]; [[1; 0; 0]; [0; 1; 0]]], [[-100; -100]; [0; 1]])
       = inr m.
Proof.
  assert (Hall : Forall (fun l => l = IGNORE) [-100; -100]) by (repeat constructor).
  assert (Hvalid : kept_ids_valid (List.length sample_vocabulary)
                     [[2; 2]; [0; 1]] [[-100; -100]; [0; 1]]).
  { intros prediction label p l Hrow Hpos Hk. simpl in Hrow.
    destruct Hrow as [E | [E | []]]; injection E as <- <-; simpl in Hpos;
      destruct Hpos as [E | [E | []]]; injection E as <- <-;
      try (exfalso; apply Hk; reflexivity);
      unfold valid_index; simpl; lia. }
  destruct (all_ignored_example_in_batch sample_vocabulary Z Z.leb
              [[[0; 0; 1]; [0; 0; 1]]; [[1; 0; 0]; [0; 1; 0]]]
              [[-100; -100]; [0; 1]] [[2; 2]; [0; 1]] 0 [2; 2] [-100; -100]
              eq_refl eq_refl eq_refl Hall Hvalid)
    as (_ & (tp & tl & Hd & Hp & Hl & _) & Hret).
  split; [exact Hall | split].
  - exists tp, tl. auto.
  - apply Hret.
    + exists [0; 1], [0; 1], 0, 0. simpl. repeat split; auto.
      unfold IGNORE. lia.
    + simpl. intros [E | [E | []]]; discriminate.
Defined.

Lemma unequal_rows_are_cut_to_the_shorter_run :
  List.length [0; 1; 1] <> List.length [0; -100]
  /\ (exists tp tl dp dl,
        decoded sample_vocabulary Z.leb ([[[1; 0]; [0; 1]; [0; 1]]], [[0; -100]])
        = inr (tp, tl)
        /\ nth_error tp 0 = Some dp /\ nth_error tl 0 = Some dl
        /\ List.length dp = 1%nat /\ List.length dl = 1%nat)
  /\ exists m,
       compute_metrics sample_vocabulary Z.leb ([[[1; 0]; [0; 1]; [0; 1]]], [[0; -100]])
       = inr m.
Proof.
  assert (Hlen : List.length [0; 1; 1] <> List.length [0; -100]) by (simpl; lia).
  assert (Hvalid : kept_ids_valid (List.length sample_vocabulary)
                     [[0; 1; 1]] [[0; -100]]).
  { intros prediction label p l Hrow Hpos Hk. simpl in Hrow.
    destruct Hrow as [E | []]; injection E as <- <-; simpl in Hpos;
      destruct Hpos as [E | [E | []]]; injection E as <- <-;
      try (exfalso; apply Hk; reflexivity);
      unfold valid_index; simpl; lia. }
  destruct (unequal_rows_are_cut_to_the_shorter sample_vocabulary Z Z.leb
              [[[1; 0]; [0; 1]; [0; 1]]] [[0; -100]] [[0; 1; 1]] 0 [0; 1; 1] [0; -100]
              eq_refl eq_refl eq_refl Hlen Hvalid)
    as (_ & (tp & tl & dp & dl & Hd & Hp & Hl & Lp & Ll & _) & Hret).
  split; [exact Hlen | split].
  - exists tp, tl, dp, dl. auto.
  - apply Hret.
    + exists [0; 1; 1], [0; -100], 0, 0. simpl. repeat split; auto.
      unfold IGNORE. lia.
    + simpl. intros [E | [E | []]]; discriminate.
Defined.

Lemma argmax_first_nan_run :
  argmax nan_leb [Some 1; None; Some 5] = inr 1.
Proof.
  apply (argmax_first_nan (option Z) nan_leb [Some 1] [Some 5] None).
  - intros [y |]; reflexivity.
  - repeat constructor.
Defined.
